(** * A Hoard-style parallel memory allocator (A2/allocators/submit/malloc.c)

    Shallow embedding of the allocator engine and the properties of its
    size-class mapper, superblock block management, heap selection and
    allocation entry points.

    Conventions of the embedding (LP64 data model):
    - [size_t] is a 64-bit unsigned integer: a [Z] in [0, 2^64), every
      arithmetic result reduced with [to_size_t];
    - [int], [int32_t] and [blockptr_t] are [Z] in [-2^31, 2^31);
      [uint32_t] is a [Z] in [0, 2^32);
    - a [superblock_t*] is the address ([Z]) of the page, [NULL] is 0;
      a [heap_t*] always points into the context's heap table and is
      the index of the slot it points to;
    - a superblock page is its header, kept as a record, and its bytes,
      a function from the byte offset in the page to the byte value;
      free-list links are 32-bit little-endian words in these bytes. *)

From Equations Require Import Equations.
From stdpp Require Import gmap list.
From Stdlib Require Import ZArith Lia.

Local Open Scope Z_scope.

(** ** Hoard parameters *)

Definition ALLOC_HOARD_FULLNESS_GROUPS : Z := 4.
Definition ALLOC_HOARD_SIZE_CLASS_BASE : Z := 2.
Definition ALLOC_HOARD_SIZE_CLASS_MIN  : Z := 2.
Definition ALLOC_HOARD_HEAP_CPU_FACTOR : Z := 2.

(** enum E_BLOCK { BLOCK_INVALID = -1 } *)
Definition BLOCK_INVALID : Z := -1.

Definition NULL : Z := 0.

(** ** Machine integers *)

Definition SIZE_T_BITS : Z := 64.

Definition to_size_t (z : Z) : Z := z mod 2 ^ SIZE_T_BITS.

Definition to_uint32 (z : Z) : Z := z mod 2 ^ 32.

(** Two's complement reading of the low 32 bits. *)
Definition to_int32 (z : Z) : Z := (z + 2 ^ 31) mod 2 ^ 32 - 2 ^ 31.

Definition INT32_MAX : Z := 2 ^ 31 - 1.

(** ** Utility functions *)

(** The [while] loop of [util_sizeclass], on the triple of the variables
    it updates. *)
Equations? util_sizeclass_loop (x sizeunit : Z) (sizecls : Z) : Z * Z * Z
  by wf (Z.to_nat x) lt :=
  util_sizeclass_loop x sizeunit sizecls
    with Z_le_dec ALLOC_HOARD_SIZE_CLASS_BASE x := {
    | left _ :=
        util_sizeclass_loop (x / ALLOC_HOARD_SIZE_CLASS_BASE)
                            (to_size_t (sizeunit * ALLOC_HOARD_SIZE_CLASS_BASE))
                            (sizecls + 1);
    | right _ := (x, sizeunit, sizecls) }.
Proof.
  unfold ALLOC_HOARD_SIZE_CLASS_BASE in *.
  assert (x / 2 < x) by (apply Z.div_lt; lia).
  assert (0 <= x / 2) by (apply Z.div_pos; lia).
  lia.
Defined.

Definition util_sizeclass (size : Z) : Z :=
  let '(_, sizeunit, sizecls) := util_sizeclass_loop size 1 0 in
  let sizecls := if size mod sizeunit =? 0 then sizecls else sizecls + 1 in
  if sizecls <? ALLOC_HOARD_SIZE_CLASS_MIN
  then ALLOC_HOARD_SIZE_CLASS_MIN else sizecls.

(** The block-size loop of [superblock_init]:
    [block_size = 1; for (i = 0; i < size_class; i++) block_size *= BASE]. *)
Fixpoint block_size_loop (n : nat) (block_size : Z) : Z :=
  match n with
  | O => block_size
  | S n' => block_size_loop n' (to_size_t (block_size * ALLOC_HOARD_SIZE_CLASS_BASE))
  end.

Definition superblock_block_size (size_class : Z) : Z :=
  block_size_loop (Z.to_nat size_class) 1.

(** ** Hoard structures *)

(** sizeof(superblock_t), sizeof(heap_t) and sizeof(context_t) under LP64
    with a 40-byte pthread_mutex_t. *)
Definition sizeof_superblock_t : Z := 64.
Definition sizeof_heap_t : Z := 96.
Definition sizeof_context_t : Z := 112.
Definition sizeof_blockptr_t : Z := 4.

Record superblock_t := mk_superblock {
  heap        : Z;   (* heap_t*: slot of the owning heap in the heap table *)
  size_class  : Z;   (* int *)
  block_size  : Z;   (* size_t *)
  block_count : Z;   (* size_t *)
  block_used  : Z;   (* size_t *)
  next_block  : Z;   (* blockptr_t *)
  next_free   : Z;   (* blockptr_t *)
  prev        : Z;   (* superblock_t* *)
  next        : Z    (* superblock_t* *)
}.

Record heap_t := mk_heap {
  lock          : bool;    (* pthread_mutex_t: held or not *)
  index         : Z;
  mem_used      : Z;
  mem_allocated : Z;
  bins          : list Z   (* superblock_t* bins[ALLOC_HOARD_FULLNESS_GROUPS] *)
}.

(** A slot of the heap table holds [None] until [heap_init] has run on it. *)
Record context_t := mk_context {
  blocks_base : Z;
  heap_count  : Z;
  heap_table  : list (option heap_t)
}.

(** One page of the segment used as a superblock: the header structure and
    the bytes of the page, addressed by their offset from the page start
    (the offsets below [sizeof_superblock_t] are the header's). *)
Record superblock_page := mk_page {
  header : superblock_t;
  bytes  : Z -> Z
}.

Record state := mk_state {
  ctx   : context_t;            (* the context at dseg_lo *)
  pages : gmap Z superblock_page
}.

(** What a [void*] of the allocator can be. *)
Inductive pointer :=
| PNull
| PBlock (sb : Z) (offset : Z)   (* (char* ) sb + offset *)
| PSystem (sz : Z).              (* whatever the system malloc(sz) returned *)

(** Field updates. *)
Definition set_block_used (v : Z) (s : superblock_t) : superblock_t :=
  mk_superblock (heap s) (size_class s) (block_size s) (block_count s) v
                (next_block s) (next_free s) (prev s) (next s).
Definition set_next_block (v : Z) (s : superblock_t) : superblock_t :=
  mk_superblock (heap s) (size_class s) (block_size s) (block_count s)
                (block_used s) v (next_free s) (prev s) (next s).
Definition set_next_free (v : Z) (s : superblock_t) : superblock_t :=
  mk_superblock (heap s) (size_class s) (block_size s) (block_count s)
                (block_used s) (next_block s) v (prev s) (next s).
Definition set_mem_used (v : Z) (h : heap_t) : heap_t :=
  mk_heap (lock h) (index h) v (mem_allocated h) (bins h).
Definition set_lock (v : bool) (h : heap_t) : heap_t :=
  mk_heap v (index h) (mem_used h) (mem_allocated h) (bins h).
Definition set_index (v : Z) (h : heap_t) : heap_t :=
  mk_heap (lock h) v (mem_used h) (mem_allocated h) (bins h).
Definition set_bins (v : list Z) (h : heap_t) : heap_t :=
  mk_heap (lock h) (index h) (mem_used h) (mem_allocated h) v.
Definition set_heap_table (t : list (option heap_t)) (c : context_t) : context_t :=
  mk_context (blocks_base c) (heap_count c) t.

(** ** Outcomes of a call *)

Inductive fault :=
| AssertionFailed      (* an assert() did not hold *)
| OutOfBounds          (* access outside an array or outside the page *)
| InvalidPointer       (* dereference of an address that is no superblock *)
| UninitializedRead    (* use of a heap slot heap_init never ran on *)
| DivisionByZero
| SignedOverflow
| NoReturnValue        (* control reached the end of a non-void function *)
| WouldBlock           (* locking a mutex that is already held *)
| NonTermination.      (* a loop that cannot end *)

Inductive result (A : Type) :=
| Ok (a : A)
| Fault (f : fault).
Arguments Ok {A} a.
Arguments Fault {A} f.

(** The value a call returned, without the state it left. *)
Definition returned {A S : Type} (r : result (A * S)) : result A :=
  match r with
  | Ok (a, _) => Ok a
  | Fault f => Fault f
  end.

(** State and fault monad of the allocator's functions. *)
Definition M (A : Type) : Type := state -> result (A * state).

Definition ret {A} (a : A) : M A := fun st => Ok (a, st).
Definition bind {A B} (m : M A) (k : A -> M B) : M B :=
  fun st => match m st with
            | Ok (a, st') => k a st'
            | Fault f => Fault f
            end.
Definition raise {A} (f : fault) : M A := fun _ => Fault f.
Definition assert (b : bool) : M unit :=
  if b then ret tt else raise AssertionFailed.

Notation "x <- m ;; k" := (bind m (fun x => k))
  (at level 100, m at next level, right associativity).
Notation "m ;;; k" := (bind m (fun _ => k))
  (at level 100, right associativity).

(** *** Memory primitives *)

Definition read_sb (sb : Z) : M superblock_t :=
  fun st => match pages st !! sb with
            | Some pg => Ok (header pg, st)
            | None => Fault InvalidPointer
            end.

Definition modify_sb (sb : Z) (f : superblock_t -> superblock_t) : M unit :=
  fun st => match pages st !! sb with
            | Some pg =>
                Ok (tt, mk_state (ctx st)
                          (<[sb := mk_page (f (header pg)) (bytes pg)]> (pages st)))
            | None => Fault InvalidPointer
            end.

Definition read_heap (h : Z) : M heap_t :=
  fun st => if h <? 0 then Fault OutOfBounds else
            match heap_table (ctx st) !! Z.to_nat h with
            | Some (Some hp) => Ok (hp, st)
            | Some None => Fault UninitializedRead
            | None => Fault OutOfBounds
            end.

Definition modify_heap (h : Z) (f : heap_t -> heap_t) : M unit :=
  fun st => if h <? 0 then Fault OutOfBounds else
            match heap_table (ctx st) !! Z.to_nat h with
            | Some (Some hp) =>
                Ok (tt, mk_state
                          (set_heap_table
                             (<[Z.to_nat h := Some (f hp)]> (heap_table (ctx st)))
                             (ctx st))
                          (pages st))
            | Some None => Fault UninitializedRead
            | None => Fault OutOfBounds
            end.

(** Little-endian 32-bit accesses to the bytes of a page. *)
Definition byte_of (v : Z) (i : Z) : Z := (v / 2 ^ (8 * i)) mod 256.

Definition store32 (m : Z -> Z) (off v : Z) : Z -> Z :=
  fun a => if (off <=? a) && (a <? off + 4) then byte_of (to_uint32 v) (a - off)
           else m a.

Definition load32 (m : Z -> Z) (off : Z) : Z :=
  to_int32 (m off + 2 ^ 8 * m (off + 1) + 2 ^ 16 * m (off + 2) + 2 ^ 24 * m (off + 3)).

Section Allocator.

(** The collaborators: the page size of the segment provider and the
    number of processors reported by the runtime. *)
Variable mem_pagesize : Z.
Variable getNumProcessors : Z.

Definition superblock_size : Z := mem_pagesize.

(** A [blockptr_t] access through a pointer into a superblock page is
    inside the object when it lies between the header and the page end. *)
Definition in_page (off : Z) : bool :=
  (sizeof_superblock_t <=? off) && (off + sizeof_blockptr_t <=? superblock_size).

Definition load_blockptr (p : pointer) : M Z :=
  fun st => match p with
            | PBlock sb off =>
                match pages st !! sb with
                | Some pg => if in_page off then Ok (load32 (bytes pg) off, st)
                             else Fault OutOfBounds
                | None => Fault InvalidPointer
                end
            | _ => Fault InvalidPointer
            end.

Definition store_blockptr (p : pointer) (v : Z) : M unit :=
  fun st => match p with
            | PBlock sb off =>
                match pages st !! sb with
                | Some pg =>
                    if in_page off
                    then Ok (tt, mk_state (ctx st)
                                   (<[sb := mk_page (header pg) (store32 (bytes pg) off v)]>
                                      (pages st)))
                    else Fault OutOfBounds
                | None => Fault InvalidPointer
                end
            | _ => Fault InvalidPointer
            end.

(** [mem_pagesize()] is positive. *)
Definition util_pagealigned (size : Z) : Z :=
  let padding := size mod mem_pagesize in
  let padding := if 0 <? padding then to_size_t (mem_pagesize - padding) else padding in
  to_size_t (size + padding).

(** ** Superblock functions *)

Definition superblock_init (sb : Z) (hp : Z) (sc : Z) : M unit :=
  fun st =>
    match pages st !! sb with
    | None => Fault InvalidPointer
    | Some pg =>
        let bsize := superblock_block_size sc in
        if bsize =? 0 then Fault DivisionByZero else
        let hdr :=
          {| size_class := sc;
             block_size := bsize;
             block_used := 0;
             block_count := to_size_t (superblock_size - sizeof_superblock_t) / bsize;
             next_block := 0;
             next_free := BLOCK_INVALID;
             heap := hp;
             next := NULL;
             prev := NULL |} in
        Ok (tt, mk_state (ctx st) (<[sb := mk_page hdr (bytes pg)]> (pages st)))
    end.

Definition superblock_block_data (sb : Z) (blk : Z) : M pointer :=
  s <- read_sb sb;;
  assert (to_size_t blk <? block_count s);;;
  ret (PBlock sb (sizeof_superblock_t + to_size_t (block_size s * to_size_t blk))).

Definition superblock_freelist_push (sb : Z) (blk : Z) : M unit :=
  prev_free <- superblock_block_data sb blk;;
  s <- read_sb sb;;
  store_blockptr prev_free (next_free s);;;
  modify_sb sb (set_next_free blk).

Definition superblock_freelist_pop (sb : Z) : M Z :=
  s <- read_sb sb;;
  if next_free s =? BLOCK_INVALID then ret BLOCK_INVALID else
  let blk := next_free s in
  p <- superblock_block_data sb blk;;
  v <- load_blockptr p;;
  modify_sb sb (set_next_free v);;;
  ret blk.

Definition superblock_block_allocate (sb : Z) : M Z :=
  s <- read_sb sb;;
  if block_count s <=? block_used s then ret BLOCK_INVALID else
  modify_sb sb (fun s => set_block_used (to_size_t (block_used s + 1)) s);;;
  s <- read_sb sb;;
  modify_heap (heap s) (fun h => set_mem_used (to_size_t (mem_used h + block_size s)) h);;;
  blk <- superblock_freelist_pop sb;;
  if negb (blk =? BLOCK_INVALID) then ret blk else
  s <- read_sb sb;;
  if next_block s =? INT32_MAX then raise SignedOverflow else
  modify_sb sb (set_next_block (next_block s + 1));;;
  ret (next_block s).

Definition superblock_block_free (sb : Z) (blk : Z) : M unit :=
  s <- read_sb sb;;
  assert (0 <? block_used s);;;
  superblock_freelist_push sb blk;;;
  modify_sb sb (fun s => set_block_used (to_size_t (block_used s - 1)) s);;;
  s <- read_sb sb;;
  modify_heap (heap s) (fun h => set_mem_used (to_size_t (mem_used h - block_size s)) h).

(** ** Heap functions *)

(** The body of the loop of [heap_init] for one [i]. *)
Definition heap_init_step (h : heap_t) (i : Z) : heap_t :=
  set_bins (<[Z.to_nat i := NULL]> (bins h)) (set_index i h).

(** [heap_init] assigns every field, whatever the slot held before; the
    bins array has [ALLOC_HOARD_FULLNESS_GROUPS] cells. *)
Definition heap_init : heap_t :=
  let h := {| lock := false; index := 0; mem_used := 0; mem_allocated := 0;
              bins := replicate (Z.to_nat ALLOC_HOARD_FULLNESS_GROUPS) NULL |} in
  foldl heap_init_step h (seqZ 0 ALLOC_HOARD_FULLNESS_GROUPS).

Definition heap_full (h : heap_t) : bool := mem_allocated h <=? mem_used h.

(** [heap->bins[group]]: the array has [ALLOC_HOARD_FULLNESS_GROUPS] cells,
    a read at another index is outside the object. *)
Definition bins_read (h : heap_t) (group : Z) : M Z :=
  if (0 <=? group) && (group <? ALLOC_HOARD_FULLNESS_GROUPS) then
    match bins h !! Z.to_nat group with
    | Some sb => ret sb
    | None => raise OutOfBounds
    end
  else raise OutOfBounds.

(** ** Context functions *)

Definition context_size : Z :=
  let size := to_size_t (sizeof_context_t
                         + to_size_t (to_size_t (sizeof_heap_t * to_size_t getNumProcessors)
                                      * ALLOC_HOARD_HEAP_CPU_FACTOR)) in
  util_pagealigned size.

(** The slots that [for (i = 1; i < heap_count; i++)] visits. *)
Definition context_init_slots (count : Z) : list Z := seqZ 1 (count - 1).

(** [context_init] on the context at address [ctx_addr]; the region
    reserved for it holds the context structure, whose table has one
    slot, followed by [getNumProcessors * ALLOC_HOARD_HEAP_CPU_FACTOR]
    more heap slots. *)
Definition context_init (ctx_addr : Z) (c : context_t) : context_t :=
  let count := getNumProcessors * ALLOC_HOARD_HEAP_CPU_FACTOR in
  let table := <[0%nat := Some heap_init]> (heap_table c) in
  let table := foldl (fun t i => <[Z.to_nat i := Some heap_init]> t)
                     table (context_init_slots count) in
  {| blocks_base := ctx_addr + context_size;
     heap_count := count;
     heap_table := table |}.

(** The memory [mem_sbrk(context_size())] hands out: no slot initialized. *)
Definition raw_context : context_t :=
  {| blocks_base := 0; heap_count := 0;
     heap_table := replicate (S (Z.to_nat (getNumProcessors * ALLOC_HOARD_HEAP_CPU_FACTOR))) None |}.

Definition context_globalheap : Z := 0.

(** [&ctx->heap_table[1 + (threadid % ctx->heap_count)]], computed in
    unsigned 32-bit arithmetic. *)
Definition context_heap (threadid : Z) : M Z :=
  fun st =>
    let count := to_uint32 (heap_count (ctx st)) in
    if count =? 0 then Fault DivisionByZero
    else Ok (to_uint32 (1 + threadid mod count), st).

(** The inner loop of the scan, [for (sb = ...; sb; sb = sb->next)], from
    the current value of [sb]. The scan writes nothing, so once it has
    followed more links than there are superblocks it is on a cycle. *)
Fixpoint context_malloc_scan_bin (fuel : nat) (sb : Z) (sizecls : Z) : M Z :=
  if sb =? NULL then ret NULL else
  match fuel with
  | O => raise NonTermination
  | S fuel' =>
      s <- read_sb sb;;
      if (size_class s =? sizecls) && (block_used s <? block_count s)
      then ret sb
      else context_malloc_scan_bin fuel' (next s) sizecls
  end.

(** The outer loop, [for (group = ...; group >= 1; group--)], from the
    current value of [group]. *)
Fixpoint context_malloc_scan (group : nat) (hp : Z) (sizecls : Z) : M Z :=
  match group with
  | O => ret NULL
  | S group' =>
      h <- read_heap hp;;
      first <- bins_read h (Z.of_nat group);;
      sb <- (fun st => context_malloc_scan_bin (S (size (pages st))) first sizecls st);;
      if negb (sb =? NULL) then ret sb
      else context_malloc_scan group' hp sizecls
  end.

(** What [context_malloc] does once the scan has left its result in [sb]. *)
Definition context_malloc_serve (glob : Z) (sb : Z) : M pointer :=
  if negb (sb =? NULL) then
    blk <- superblock_block_allocate sb;;
    superblock_block_data sb blk
  else
    g <- read_heap glob;;
    if negb (heap_full g) then raise NoReturnValue
    else raise NoReturnValue.

Definition context_malloc (hp : Z) (sz : Z) : M pointer :=
  let glob := context_globalheap in
  let sizecls := util_sizeclass sz in
  sb <- context_malloc_scan (Z.to_nat ALLOC_HOARD_FULLNESS_GROUPS) hp sizecls;;
  context_malloc_serve glob sb.

(** ** Implementation *)

Definition pthread_mutex_lock (hp : Z) : M unit :=
  h <- read_heap hp;;
  if lock h then raise WouldBlock else modify_heap hp (set_lock true).

Definition pthread_mutex_unlock (hp : Z) : M unit :=
  modify_heap hp (set_lock false).

(** [mm_malloc] called by the thread whose [pthread_self()] is [self]. *)
Definition mm_malloc (self : Z) (sz : Z) : M pointer :=
  if superblock_size / 2 <? sz then ret (PSystem sz) else
  hp <- context_heap (to_uint32 self);;
  pthread_mutex_lock hp;;;
  mem <- context_malloc hp sz;;
  pthread_mutex_unlock hp;;;
  ret mem.

Definition mm_free (ptr : pointer) : M unit := ret tt.

(** [mm_init], given the address that [mem_sbrk(context_size())] returned
    ([NULL] when the segment cannot be extended) and the memory [c] found
    there; it yields the status and the memory of the context. The
    segment provider itself is a collaborator. *)
Definition mm_init (ctx_addr : Z) (c : context_t) : Z * context_t :=
  if ctx_addr =? NULL then (-1, c) else (0, context_init ctx_addr c).

(** ** Specification vocabulary *)

(** Offset in the page of the first byte of block [blk]. *)
Definition block_offset (s : superblock_t) (blk : Z) : Z :=
  sizeof_superblock_t + block_size s * blk.

(** A superblock header whose fields are consistent with the page that
    holds it: blocks are large enough for a free-list link, all of them
    fit in the page after the header, and the counters are in range. *)
Record sb_wf (s : superblock_t) : Prop := {
  wf_page : mem_pagesize <= INT32_MAX;
  wf_block_size : sizeof_blockptr_t <= block_size s;
  wf_fit : sizeof_superblock_t + block_size s * block_count s <= mem_pagesize;
  wf_used : 0 <= block_used s <= block_count s;
  wf_next_block : 0 <= next_block s <= block_count s;
  wf_next_free : next_free s = BLOCK_INVALID \/ 0 <= next_free s < block_count s
}.

(** [hp] points to a slot of the heap table that [heap_init] has set up
    and that now holds [h]. *)
Definition heap_at (st : state) (hp : Z) (h : heap_t) : Prop :=
  0 <= hp /\ heap_table (ctx st) !! Z.to_nat hp = Some (Some h).

(** The state in which the heap at [hp] holds [h] and the page at [sb]
    holds [pg]. *)
Definition put (st : state) (hp : Z) (h : heap_t) (sb : Z) (pg : superblock_page) : state :=
  mk_state (set_heap_table (<[Z.to_nat hp := Some h]> (heap_table (ctx st))) (ctx st))
           (<[sb := pg]> (pages st)).

(** Header and result of a block allocation that finds spare capacity. *)
Definition allocate_header (pg : superblock_page) : superblock_t :=
  let s := set_block_used (block_used (header pg) + 1) (header pg) in
  if next_free s =? BLOCK_INVALID then set_next_block (next_block s + 1) s
  else set_next_free (load32 (bytes pg) (block_offset s (next_free s))) s.

Definition allocate_result (s : superblock_t) : Z :=
  if next_free s =? BLOCK_INVALID then next_block s else next_free s.

(** Page after block [blk] has been freed. *)
Definition free_page (pg : superblock_page) (blk : Z) : superblock_page :=
  let s := header pg in
  mk_page (set_block_used (block_used s - 1) (set_next_free blk s))
          (store32 (bytes pg) (block_offset s blk) (next_free s)).

(** The free list threaded through the freed blocks: [fl] is the list of
    block indices met from [head] by following the links stored in the
    blocks, up to [BLOCK_INVALID]. *)
Fixpoint freelist (m : Z -> Z) (s : superblock_t) (head : Z) (fl : list Z) : Prop :=
  match fl with
  | [] => head = BLOCK_INVALID
  | b :: fl' => head = b /\ freelist m s (load32 m (block_offset s b)) fl'
  end.

(** Representation invariant of a superblock page with live blocks [L]:
    the live blocks and the blocks on the free list are exactly the
    blocks below the watermark, each once. *)
Definition sb_inv (pg : superblock_page) (L : list Z) : Prop :=
  sb_wf (header pg) /\
  block_used (header pg) = Z.of_nat (length L) /\
  exists fl, freelist (bytes pg) (header pg) (next_free (header pg)) fl /\
             L ++ fl ≡ₚ seqZ 0 (next_block (header pg)).

(** The bounds alone, for a page with live blocks [L]. *)
Definition sb_bounds (pg : superblock_page) (L : list Z) : Prop :=
  0 <= next_block (header pg) /\
  0 <= block_used (header pg) <= block_count (header pg) /\
  block_count (header pg) < 2 ^ SIZE_T_BITS /\
  block_used (header pg) = Z.of_nat (length L).

(** One block operation on superblock [sb], with the list of the live
    block indices it leaves: an allocation adds the index it returns, a
    failed allocation adds nothing, and a free, which is only issued for
    a live index, removes that occurrence. *)
Inductive sb_step (sb : Z) : state * list Z -> state * list Z -> Prop :=
| step_allocate st st' blk L :
    superblock_block_allocate sb st = Ok (blk, st') ->
    blk <> BLOCK_INVALID ->
    sb_step sb (st, L) (st', blk :: L)
| step_allocate_none st st' L :
    superblock_block_allocate sb st = Ok (BLOCK_INVALID, st') ->
    sb_step sb (st, L) (st', L)
| step_free st st' blk L1 L2 :
    superblock_block_free sb blk st = Ok (tt, st') ->
    sb_step sb (st, L1 ++ blk :: L2) (st', L1 ++ L2).

(** The superblock at [sb], owned by the heap at [hp], satisfies its
    representation invariant with live blocks [L]. *)
Definition sb_state_inv (sb hp : Z) (st : state) (L : list Z) : Prop :=
  exists pg h, pages st !! sb = Some pg /\ heap (header pg) = hp /\
               heap_at st hp h /\ sb_inv pg L.

End Allocator.

(** ** A concrete configuration: pages of 4096 bytes, one processor *)

Definition example_pagesize : Z := 4096.

(** The context that [mm_init] sets up at address 4096. *)
Definition example_context : context_t :=
  (mm_init example_pagesize 1 4096 (raw_context 1)).2.

(** No superblock yet. *)
Definition example_fresh_state : state := mk_state example_context ∅.

(** A page of the segment at address 8192, not yet a superblock. *)
Definition example_raw_page : superblock_page :=
  mk_page (mk_superblock 0 0 0 0 0 0 0 0 0) (fun _ => 0).

Definition example_state : state :=
  mk_state example_context {[ 8192 := example_raw_page ]}.

(** A superblock of size class 3 owned by heap 1, with the given counters
    and bytes. *)
Definition example_page (used nb nf : Z) (m : Z -> Z) : superblock_page :=
  mk_page {| heap := 1; size_class := 3; block_size := 8; block_count := 504;
             block_used := used; next_block := nb; next_free := nf;
             prev := NULL; next := NULL |}
          m.

Definition example_superblock : superblock_page :=
  example_page 0 0 BLOCK_INVALID (fun _ => 0).

(** Heap 1 with that superblock in its bin 0 and nothing in the others. *)
Definition example_bin0_state : state :=
  mk_state
    (set_heap_table
       (<[1%nat := Some (set_bins [8192; NULL; NULL; NULL] heap_init)]>
          (heap_table example_context))
       example_context)
    {[ 8192 := example_superblock ]}.

(** A superblock of size class 11 whose single block is in use. *)
Definition example_full_superblock : superblock_page :=
  mk_page {| heap := 1; size_class := 11; block_size := 2048; block_count := 1;
             block_used := 1; next_block := 1; next_free := BLOCK_INVALID;
             prev := NULL; next := NULL |}
          (fun _ => 0).

Definition example_full_state : state :=
  mk_state example_context {[ 8192 := example_full_superblock ]}.

(** The states of a run on the page at 8192: after [superblock_init] for
    size class 3 in heap 1, then after allocate, allocate, free of block
    0, allocate. *)
Definition example_context_used (used : Z) : context_t :=
  set_heap_table
    (<[1%nat := Some (set_mem_used used heap_init)]> (heap_table example_context))
    example_context.

Definition example_trace_0 : state :=
  mk_state example_context {[ 8192 := example_superblock ]}.
Definition example_trace_1 : state :=
  mk_state (example_context_used 8)
           {[ 8192 := example_page 1 1 BLOCK_INVALID (fun _ => 0) ]}.
Definition example_trace_2 : state :=
  mk_state (example_context_used 16)
           {[ 8192 := example_page 2 2 BLOCK_INVALID (fun _ => 0) ]}.
Definition example_trace_3 : state :=
  mk_state (example_context_used 8)
           {[ 8192 := example_page 1 2 0 (store32 (fun _ => 0) 64 BLOCK_INVALID) ]}.
Definition example_trace_4 : state :=
  mk_state (example_context_used 16)
           {[ 8192 := example_page 2 2 BLOCK_INVALID
                                   (store32 (fun _ => 0) 64 BLOCK_INVALID) ]}.

(** ** Further vocabulary *)

(** [n] block allocations in a row on superblock [sb], with the indices
    they returned. *)
Fixpoint superblock_allocate_many (pagesize sb : Z) (n : nat) : M (list Z) :=
  match n with
  | O => ret []
  | S n' =>
      blk <- superblock_block_allocate pagesize sb;;
      rest <- superblock_allocate_many pagesize sb n';;
      ret (blk :: rest)
  end.


(** The list of the superblocks met from [sb] by following the [next]
    links, up to [NULL]. *)
Fixpoint sb_chain (pgs : gmap Z superblock_page) (sb : Z) (l : list Z) : Prop :=
  match l with
  | [] => sb = NULL
  | a :: l' =>
      sb = a /\ a <> NULL /\
      exists pg, pgs !! a = Some pg /\ sb_chain pgs (next (header pg)) l'
  end.

(** The test of the scan on the superblock at [a]: the size class asked
    for, and spare capacity. *)
Definition usable (pgs : gmap Z superblock_page) (sizecls : Z) (a : Z) : bool :=
  match pgs !! a with
  | Some pg => (size_class (header pg) =? sizecls)
               && (block_used (header pg) <? block_count (header pg))
  | None => false
  end.

(** The first superblock of a list that passes the test, [NULL] when
    there is none. *)
Fixpoint first_usable (pgs : gmap Z superblock_page) (sizecls : Z) (l : list Z) : Z :=
  match l with
  | [] => NULL
  | a :: l' => if usable pgs sizecls a then a else first_usable pgs sizecls l'
  end.

(** The lists of the bins [group], [group - 1], ..., 1 of a heap, in
    that order. *)
Fixpoint bin_chains (pgs : gmap Z superblock_page) (bs : list Z) (group : nat)
         (ls : list (list Z)) : Prop :=
  match group, ls with
  | O, [] => True
  | S g, l :: ls' =>
      (exists first, bs !! S g = Some first /\ sb_chain pgs first l) /\
      bin_chains pgs bs g ls'
  | _, _ => False
  end.

(** Heap 1 with a list of two superblocks of size class 3 in its bin 1:
    the one at 8192 is full, the one at 12288 is empty. *)
Definition example_scan_state : state :=
  mk_state
    (set_heap_table
       (<[1%nat := Some (set_bins [NULL; 8192; NULL; NULL] heap_init)]>
          (heap_table example_context))
       example_context)
    {[ 8192 := mk_page {| heap := 1; size_class := 3; block_size := 8;
                          block_count := 504; block_used := 504; next_block := 504;
                          next_free := BLOCK_INVALID; prev := NULL; next := 12288 |}
                       (fun _ => 0);
       12288 := mk_page {| heap := 1; size_class := 3; block_size := 8;
                           block_count := 504; block_used := 0; next_block := 0;
                           next_free := BLOCK_INVALID; prev := 8192; next := NULL |}
                        (fun _ => 0) ]}.

(** A superblock of size class 5 whose [next] link points to itself. *)
Definition example_cycle_state : state :=
  mk_state example_context
    {[ 8192 := mk_page {| heap := 1; size_class := 5; block_size := 32;
                          block_count := 126; block_used := 0; next_block := 0;
                          next_free := BLOCK_INVALID; prev := NULL; next := 8192 |}
                       (fun _ => 0) ]}.

(** * Properties *)

Ltac unfold_sizes :=
  unfold INT32_MAX, sizeof_blockptr_t, sizeof_superblock_t, SIZE_T_BITS in *.

(** ** Machine integers and the size-class mapper *)

Lemma to_size_t_small z : 0 <= z < 2 ^ 64 -> to_size_t z = z.
Proof. intros H. unfold to_size_t, SIZE_T_BITS. apply Z.mod_small. lia. Qed.

Example util_sizeclass_of_8 : util_sizeclass 8 = 3.
Proof. reflexivity. Qed.

Example util_sizeclass_of_9 : util_sizeclass 9 = 4.
Proof. reflexivity. Qed.

Example util_sizeclass_of_2048 : util_sizeclass 2048 = 11.
Proof. reflexivity. Qed.

Lemma util_sizeclass_loop_inv x u c size :
  1 <= x -> 0 <= c -> u = 2 ^ c -> size / 2 ^ c = x -> 0 <= size < 2 ^ 64 ->
  exists c', util_sizeclass_loop x u c = (1, 2 ^ c', c')
             /\ c <= c' /\ 2 ^ c' <= size < 2 ^ (c' + 1).
Proof.
  revert size.
  apply (util_sizeclass_loop_elim
           (fun x u c r => forall size,
                1 <= x -> 0 <= c -> u = 2 ^ c -> size / 2 ^ c = x ->
                0 <= size < 2 ^ 64 ->
                exists c', r = (1, 2 ^ c', c')
                           /\ c <= c' /\ 2 ^ c' <= size < 2 ^ (c' + 1)));
    clear x u c; unfold ALLOC_HOARD_SIZE_CLASS_BASE.
  - intros x Hx u c IH _ size H1 Hc Hu Hdiv Hsize. subst u.
    assert (Hpow : 0 < 2 ^ c) by (apply Z.pow_pos_nonneg; lia).
    assert (Hp1 : 2 ^ (c + 1) = 2 ^ c * 2) by (rewrite Z.pow_add_r; lia).
    assert (Hge : 2 ^ c * x <= size).
    { subst x. apply Z.mul_div_le. lia. }
    destruct (IH size) as (c' & Hr & Hle & Hb).
    + assert (1 * 2 <= x) by lia. apply Z.div_le_lower_bound; lia.
    + lia.
    + rewrite to_size_t_small; [lia|]. nia.
    + rewrite Hp1, <- Z.div_div by lia. congruence.
    + lia.
    + exists c'. split; [exact Hr|]. split; [lia|exact Hb].
  - intros x Hx u c _ size H1 Hc Hu Hdiv Hsize. subst u.
    assert (x = 1) by lia. subst x.
    assert (Hpow : 0 < 2 ^ c) by (apply Z.pow_pos_nonneg; lia).
    exists c. split; [congruence|]. split; [lia|].
    rewrite Z.pow_add_r by lia.
    pose proof (Z.div_mod size (2 ^ c) ltac:(lia)) as E.
    pose proof (Z.mod_pos_bound size (2 ^ c) Hpow). rewrite H in E. lia.
Qed.

Lemma util_sizeclass_spec s :
  0 < s < 2 ^ 64 ->
  2 <= util_sizeclass s /\ s <= 2 ^ util_sizeclass s /\
  (forall c', 2 <= c' -> s <= 2 ^ c' -> util_sizeclass s <= c').
Proof.
  intros Hs.
  destruct (util_sizeclass_loop_inv s 1 0 s) as (k & Hr & Hk & Hb);
    [lia | lia | reflexivity | rewrite Z.pow_0_r, Z.div_1_r; reflexivity | lia |].
  unfold util_sizeclass. rewrite Hr. unfold ALLOC_HOARD_SIZE_CLASS_MIN.
  assert (Hpow : 0 < 2 ^ k) by (apply Z.pow_pos_nonneg; lia).
  assert (Hp1 : 2 ^ (k + 1) = 2 ^ k * 2) by (rewrite Z.pow_add_r; lia).
  assert (Hlow : forall c', c' < k -> 2 ^ c' < 2 ^ k).
  { intros c' Hc'. destruct (Z_lt_dec c' 0).
    - rewrite Z.pow_neg_r; lia.
    - apply Z.pow_lt_mono_r; lia. }
  assert (Hlow' : forall c', c' <= k -> 2 ^ c' <= 2 ^ k).
  { intros c' Hc'. destruct (Z.eq_dec c' k); [subst; lia|].
    specialize (Hlow c'). lia. }
  destruct (Z.eqb_spec (s mod 2 ^ k) 0) as [Hz|Hnz].
  - assert (s = 2 ^ k).
    { pose proof (Z.div_mod s (2 ^ k) ltac:(lia)) as E. rewrite Hz in E.
      assert (s / 2 ^ k < 2) by (apply Z.div_lt_upper_bound; lia).
      assert (0 < s / 2 ^ k) by (apply Z.div_str_pos; lia).
      assert (s / 2 ^ k = 1) by lia. lia. }
    destruct (Z.ltb_spec k 2).
    + repeat split; [lia | | intros; lia].
      assert (Hk01 : k = 0 \/ k = 1) by lia.
      destruct Hk01; subst k; simpl in *; lia.
    + repeat split; [lia | lia |].
      intros c' Hc' Hsc'. destruct (Z_lt_dec c' k); [|lia].
      specialize (Hlow c'). lia.
  - assert (2 ^ k < s).
    { destruct (Z.eq_dec s (2 ^ k)) as [E|]; [|lia].
      exfalso. apply Hnz. rewrite E. apply Z.mod_same. lia. }
    destruct (Z.ltb_spec (k + 1) 2).
    + repeat split; [lia | | intros; lia].
      assert (k = 0) by lia. subst k. simpl in *. lia.
    + repeat split; [lia | lia |].
      intros c' Hc' Hsc'. destruct (Z_lt_dec c' (k + 1)); [|lia].
      specialize (Hlow' c'). lia.
Qed.

(** C1. For every size [s > 0] the size class returned is at least 2, its
    power of two is at least [s], no smaller class has both properties,
    and the class grows with [s]; size 5 gives class 3 with blocks of 8
    bytes and size 1 gives class 2 with blocks of 4 bytes. *)
Theorem util_sizeclass_minimal (s : Z) (Hs : 0 < s < 2 ^ 64) :
  2 <= util_sizeclass s /\
  s <= 2 ^ util_sizeclass s /\
  (forall c', 2 <= c' -> s <= 2 ^ c' -> util_sizeclass s <= c') /\
  (forall s', s <= s' < 2 ^ 64 -> util_sizeclass s <= util_sizeclass s') /\
  (util_sizeclass 5 = 3 /\ superblock_block_size (util_sizeclass 5) = 8) /\
  (util_sizeclass 1 = 2 /\ superblock_block_size (util_sizeclass 1) = 4).
Proof.
  destruct (util_sizeclass_spec s Hs) as (H2 & Hge & Hmin).
  repeat split; try assumption; try reflexivity.
  intros s' Hs'.
  destruct (util_sizeclass_spec s') as (H2' & Hge' & _); [lia|].
  apply Hmin; lia.
Qed.

(** ** Bytes of a page *)

Lemma store32_other m off v a :
  a < off \/ off + 4 <= a -> store32 m off v a = m a.
Proof.
  intros H. unfold store32.
  destruct (Z.leb_spec off a), (Z.ltb_spec a (off + 4)); simpl; try reflexivity; lia.
Qed.

Lemma load32_store32_other m off v off' :
  off' + 4 <= off \/ off + 4 <= off' ->
  load32 (store32 m off v) off' = load32 m off'.
Proof.
  intros H. unfold load32. rewrite !store32_other by lia. reflexivity.
Qed.

Lemma load32_store32_same m off v :
  - 2 ^ 31 <= v < 2 ^ 31 -> load32 (store32 m off v) off = v.
Proof.
  intros Hv. unfold load32, store32.
  replace (off <=? off) with true by (symmetry; apply Z.leb_le; lia).
  replace (off <=? off + 1) with true by (symmetry; apply Z.leb_le; lia).
  replace (off <=? off + 2) with true by (symmetry; apply Z.leb_le; lia).
  replace (off <=? off + 3) with true by (symmetry; apply Z.leb_le; lia).
  replace (off <? off + 4) with true by (symmetry; apply Z.ltb_lt; lia).
  replace (off + 1 <? off + 4) with true by (symmetry; apply Z.ltb_lt; lia).
  replace (off + 2 <? off + 4) with true by (symmetry; apply Z.ltb_lt; lia).
  replace (off + 3 <? off + 4) with true by (symmetry; apply Z.ltb_lt; lia).
  simpl andb. cbv iota.
  replace (off - off) with 0 by lia.
  replace (off + 1 - off) with 1 by lia.
  replace (off + 2 - off) with 2 by lia.
  replace (off + 3 - off) with 3 by lia.
  unfold byte_of, to_uint32.
  set (u := v mod 2 ^ 32).
  assert (Hu : 0 <= u < 2 ^ 32) by (apply Z.mod_pos_bound; lia).
  change (8 * 0) with 0. change (8 * 1) with 8. change (8 * 2) with 16.
  change (8 * 3) with 24.
  assert (E : u mod 256 + 2 ^ 8 * ((u / 2 ^ 8) mod 256)
              + 2 ^ 16 * ((u / 2 ^ 16) mod 256)
              + 2 ^ 24 * ((u / 2 ^ 24) mod 256) = u).
  { change (2 ^ 8) with 256. change (2 ^ 16) with 65536.
    change (2 ^ 24) with 16777216. change (2 ^ 32) with 4294967296 in Hu.
    Z.to_euclidean_division_equations. lia. }
  rewrite Z.pow_0_r, Z.div_1_r. rewrite E.
  unfold to_int32, u.
  rewrite Zplus_mod_idemp_l.
  rewrite Z.mod_small; lia.
Qed.

(** ** What one call does on a well-formed superblock *)

Section SuperblockProperties.

Variable mem_pagesize : Z.

Lemma wf_block_in_page s blk :
  sb_wf mem_pagesize s -> 0 <= blk < block_count s ->
  to_size_t blk = blk /\
  to_size_t (block_size s * blk) = block_size s * blk /\
  in_page mem_pagesize (sizeof_superblock_t + block_size s * blk) = true.
Proof.
  intros [] Hb. unfold_sizes.
  assert (block_size s * blk + block_size s <= block_size s * block_count s) by nia.
  assert (0 <= block_size s * blk) by nia.
  rewrite (to_size_t_small blk) by lia.
  rewrite (to_size_t_small (_ * _)) by lia.
  split; [reflexivity|]. split; [reflexivity|].
  unfold in_page, superblock_size. unfold_sizes.
  apply andb_true_iff. split; apply Z.leb_le; lia.
Qed.

(** *** What one call does *)

Lemma superblock_block_allocate_full st sb pg :
  pages st !! sb = Some pg ->
  block_count (header pg) <= block_used (header pg) ->
  superblock_block_allocate mem_pagesize sb st = Ok (BLOCK_INVALID, st).
Proof.
  intros Hpg Hfull.
  unfold superblock_block_allocate, bind, read_sb. rewrite Hpg.
  destruct (Z.leb_spec (block_count (header pg)) (block_used (header pg)));
    [reflexivity|lia].
Qed.

Lemma superblock_block_allocate_spare st sb pg h :
  pages st !! sb = Some pg ->
  sb_wf mem_pagesize (header pg) ->
  heap_at st (heap (header pg)) h ->
  block_used (header pg) < block_count (header pg) ->
  superblock_block_allocate mem_pagesize sb st =
  Ok (allocate_result (header pg),
      put st (heap (header pg))
          (set_mem_used (to_size_t (mem_used h + block_size (header pg))) h)
          sb (mk_page (allocate_header pg) (bytes pg))).
Proof.
  intros Hpg Hwf [Hhp Hh] Hfree.
  destruct st as [c p]. destruct pg as [s m]. simpl in *.
  pose proof Hwf as [Wp Wbs Wfit Wused Wnb Wnf].
  assert (Hu : to_size_t (block_used s + 1) = block_used s + 1).
  { apply to_size_t_small. unfold_sizes. nia. }
  unfold superblock_block_allocate, superblock_freelist_pop, bind, read_sb,
    modify_sb, modify_heap.
  cbn. rewrite Hpg. cbn.
  destruct (Z.leb_spec (block_count s) (block_used s)); [lia|].
  cbn. rewrite Hpg. cbn. rewrite lookup_insert_eq. cbn.
  destruct (Z.ltb_spec (heap s) 0); [lia|].
  cbn. rewrite Hh. cbn. rewrite lookup_insert_eq. cbn.
  unfold allocate_result, allocate_header, put. cbn.
  rewrite Hu.
  destruct (Z.eqb_spec (next_free s) BLOCK_INVALID) as [Hnf|Hnf].
  - cbn. rewrite lookup_insert_eq. cbn.
    destruct (Z.eqb_spec (next_block s) INT32_MAX) as [E|E].
    { exfalso. unfold_sizes. nia. }
    cbn. rewrite lookup_insert_eq. rewrite !insert_insert_eq. reflexivity.
  - destruct Wnf as [?|Hr]; [contradiction|].
    destruct (wf_block_in_page s (next_free s) Hwf Hr) as (E1 & E2 & E3).
    unfold superblock_block_data, bind, read_sb, assert, load_blockptr. cbn.
    rewrite lookup_insert_eq. cbn. rewrite E1.
    destruct (Z.ltb_spec (next_free s) (block_count s)); [|lia]. cbn.
    rewrite lookup_insert_eq. rewrite E2, E3. cbn.
    rewrite lookup_insert_eq. cbn.
    destruct (Z.eqb_spec (next_free s) BLOCK_INVALID); [contradiction|]. cbn.
    rewrite !insert_insert_eq. reflexivity.
Qed.

Lemma superblock_block_free_live st sb pg h blk :
  pages st !! sb = Some pg ->
  sb_wf mem_pagesize (header pg) ->
  heap_at st (heap (header pg)) h ->
  0 < block_used (header pg) ->
  0 <= blk < block_count (header pg) ->
  superblock_block_free mem_pagesize sb blk st =
  Ok (tt,
      put st (heap (header pg))
          (set_mem_used (to_size_t (mem_used h - block_size (header pg))) h)
          sb (free_page pg blk)).
Proof.
  intros Hpg Hwf [Hhp Hh] Hused Hblk.
  destruct st as [c p]. destruct pg as [s m]. simpl in *.
  pose proof Hwf as [Wp Wbs Wfit Wused Wnb Wnf].
  assert (Hu : to_size_t (block_used s - 1) = block_used s - 1).
  { apply to_size_t_small. unfold_sizes. nia. }
  destruct (wf_block_in_page s blk Hwf Hblk) as (E1 & E2 & E3).
  unfold superblock_block_free, superblock_freelist_push, superblock_block_data,
    bind, read_sb, modify_sb, modify_heap, assert, store_blockptr.
  cbn. rewrite Hpg. cbn.
  destruct (Z.ltb_spec 0 (block_used s)); [|lia].
  cbn. rewrite Hpg. cbn. rewrite E1.
  destruct (Z.ltb_spec blk (block_count s)); [|lia].
  cbn. rewrite Hpg. cbn. rewrite Hpg. rewrite E2, E3. cbn.
  rewrite lookup_insert_eq. cbn. rewrite lookup_insert_eq. cbn.
  rewrite lookup_insert_eq. cbn.
  destruct (Z.ltb_spec (heap s) 0); [lia|].
  cbn. rewrite Hh. unfold put, free_page, block_offset. cbn.
  rewrite Hu. rewrite !insert_insert_eq. reflexivity.
Qed.

End SuperblockProperties.

(** ** The representation invariant *)

Section SuperblockInvariant.

Variable mem_pagesize : Z.

Lemma freelist_ext m m' s s' head fl :
  (forall b, b ∈ fl -> load32 m' (block_offset s' b) = load32 m (block_offset s b)) ->
  freelist m s head fl -> freelist m' s' head fl.
Proof.
  revert head. induction fl as [|b fl IH]; intros head Hext Hfl; simpl in *.
  - exact Hfl.
  - destruct Hfl as [-> Hfl]. split; [reflexivity|].
    rewrite Hext by (left).
    apply IH; [|exact Hfl]. intros b' Hb'. apply Hext. right. exact Hb'.
Qed.

Lemma freelist_head m s head fl :
  freelist m s head fl ->
  (head = BLOCK_INVALID /\ fl = []) \/ (exists fl', fl = head :: fl').
Proof.
  destruct fl as [|b fl]; simpl.
  - intros ->. left. split; reflexivity.
  - intros [-> _]. right. exists fl. reflexivity.
Qed.

Lemma seqZ_length_perm (l : list Z) n :
  0 <= n -> l ≡ₚ seqZ 0 n -> Z.of_nat (length l) = n.
Proof.
  intros Hn Hp. rewrite (Permutation_length Hp), length_seqZ. lia.
Qed.

Lemma sb_inv_allocate pg L :
  sb_inv mem_pagesize pg L ->
  block_used (header pg) < block_count (header pg) ->
  allocate_result (header pg) <> BLOCK_INVALID /\
  sb_inv mem_pagesize (mk_page (allocate_header pg) (bytes pg))
         (allocate_result (header pg) :: L).
Proof.
  destruct pg as [s m]. intros (Hwf & Hused & fl & Hfl & Hperm) Hspare.
  simpl in *. destruct Hwf as [Wp Wbs Wfit Wused Wnb Wnf].
  unfold allocate_result, allocate_header, sb_inv. simpl.
  assert (Hin : forall b, b ∈ L ++ fl -> 0 <= b < next_block s).
  { intros b Hb. rewrite Hperm in Hb. apply elem_of_seqZ in Hb. lia. }
  destruct (Z.eqb_spec (next_free s) BLOCK_INVALID) as [Hnf|Hnf].
  - (* the free list is empty: the watermark block is handed out *)
    destruct (freelist_head _ _ _ _ Hfl) as [[_ ->]|[fl' ->]].
    2:{ exfalso. specialize (Hin (next_free s)).
        rewrite Hnf in Hin. unfold BLOCK_INVALID in Hin.
        assert (-1 ∈ L ++ -1 :: fl') by (apply elem_of_app; right; left).
        specialize (Hin H). unfold BLOCK_INVALID in *. lia. }
    rewrite app_nil_r in Hperm.
    pose proof (seqZ_length_perm L (next_block s) ltac:(lia) Hperm) as Hlen.
    split; [unfold BLOCK_INVALID; lia|].
    split; [|split].
    + constructor; simpl; try assumption; lia.
    + simpl. rewrite Nat2Z.inj_succ. lia.
    + exists []. simpl. split; [exact Hnf|].
      rewrite app_nil_r.
      rewrite (seqZ_app 0 (next_block s) 1) by lia.
      rewrite <- Hperm. simpl.
      change (seqZ (next_block s) 1) with [next_block s].
      apply Permutation_cons_append.
  - (* the head of the free list is handed out *)
    destruct (freelist_head _ _ _ _ Hfl) as [[? _]|[fl' ->]]; [contradiction|].
    simpl in Hfl. destruct Hfl as [_ Hfl].
    split; [exact Hnf|].
    split; [|split].
    + constructor; simpl; try assumption; try lia.
      unfold block_offset in *. simpl.
      destruct (freelist_head _ _ _ _ Hfl) as [[E _]|[fl'' ->]]; [left; exact E|].
      right.
      assert (0 <= load32 m (sizeof_superblock_t + block_size s * next_free s)
              < next_block s); [|lia].
      apply Hin. apply elem_of_app. right. right. left.
    + simpl. rewrite Nat2Z.inj_succ. lia.
    + exists fl'. split.
      * eapply freelist_ext; [|exact Hfl]. intros b _. reflexivity.
      * simpl. rewrite <- Hperm. apply Permutation_middle.
Qed.

Lemma sb_inv_live pg L blk :
  sb_inv mem_pagesize pg L -> blk ∈ L ->
  0 <= blk < next_block (header pg) /\ 0 <= blk < block_count (header pg) /\
  0 < block_used (header pg).
Proof.
  intros (Hwf & Hused & fl & Hfl & Hperm) Hblk.
  destruct Hwf as [Wp Wbs Wfit Wused Wnb Wnf].
  assert (Hb : blk ∈ seqZ 0 (next_block (header pg))).
  { rewrite <- Hperm. apply elem_of_app. left. exact Hblk. }
  apply elem_of_seqZ in Hb.
  destruct L as [|x L]; [inversion Hblk|].
  simpl in Hused. lia.
Qed.

Lemma sb_inv_NoDup pg L :
  sb_inv mem_pagesize pg L ->
  NoDup L /\ Forall (fun b => 0 <= b < block_count (header pg)) L.
Proof.
  intros Hinv. pose proof Hinv as (Hwf & Hused & fl & Hfl & Hperm).
  split.
  - assert (Hnd : NoDup (L ++ fl)) by (rewrite Hperm; apply NoDup_seqZ).
    apply NoDup_app in Hnd. tauto.
  - apply Forall_forall. intros b Hb.
    destruct (sb_inv_live pg L b Hinv Hb) as (_ & H & _). exact H.
Qed.

Lemma sb_inv_free pg L1 L2 blk :
  sb_inv mem_pagesize pg (L1 ++ blk :: L2) ->
  sb_inv mem_pagesize (free_page pg blk) (L1 ++ L2).
Proof.
  intros Hinv.
  destruct (sb_inv_live pg _ blk Hinv) as (Hnb & Hcnt & Hpos).
  { apply elem_of_app. right. left. }
  destruct pg as [s m]. destruct Hinv as (Hwf & Hused & fl & Hfl & Hperm).
  simpl in *. destruct Hwf as [Wp Wbs Wfit Wused Wnb Wnf].
  assert (Hnd : NoDup ((L1 ++ blk :: L2) ++ fl)) by (rewrite Hperm; apply NoDup_seqZ).
  assert (Hin : forall b, b ∈ fl -> b <> blk /\ 0 <= b < next_block s).
  { intros b Hb. split.
    - apply NoDup_app in Hnd. destruct Hnd as (_ & Hdisj & _).
      intros ->. apply (Hdisj blk); [|exact Hb].
      apply elem_of_app. right. left.
    - assert (Hb' : b ∈ seqZ 0 (next_block s)).
      { rewrite <- Hperm. apply elem_of_app. right. exact Hb. }
      apply elem_of_seqZ in Hb'. lia. }
  unfold free_page, sb_inv. simpl.
  split; [|split].
  - constructor; simpl; try assumption; lia.
  - rewrite Hused. rewrite !length_app. simpl. lia.
  - exists (blk :: fl). split.
    + simpl. split; [reflexivity|].
      unfold block_offset at 2. simpl.
      change (sizeof_superblock_t + block_size s * blk) with (block_offset s blk).
      rewrite load32_store32_same.
      2:{ unfold_sizes. destruct Wnf as [->|?]; [unfold BLOCK_INVALID; lia|nia]. }
      eapply freelist_ext; [|exact Hfl].
      intros b Hb. destruct (Hin b Hb) as [Hne Hr].
      unfold block_offset. simpl.
      apply load32_store32_other. unfold_sizes. nia.
    + rewrite <- Hperm. rewrite <- !app_assoc. simpl.
      apply Permutation_app_head. symmetry. apply Permutation_middle.
Qed.

End SuperblockInvariant.

(** ** Initialization and sequences of calls *)

Section SuperblockTraces.

Variable mem_pagesize : Z.

Lemma block_size_loop_pow n b :
  0 <= b < 2 ^ 64 -> block_size_loop n b = to_size_t (b * 2 ^ Z.of_nat n).
Proof.
  revert b. induction n as [|n IH]; intros b Hb.
  - simpl. rewrite Z.mul_1_r. symmetry. apply to_size_t_small. exact Hb.
  - cbn [block_size_loop]. rewrite IH.
    + unfold to_size_t, ALLOC_HOARD_SIZE_CLASS_BASE, SIZE_T_BITS.
      rewrite Z.mul_mod_idemp_l by lia.
      rewrite Nat2Z.inj_succ, Z.pow_succ_r by lia.
      f_equal. lia.
    + unfold to_size_t, SIZE_T_BITS. apply Z.mod_pos_bound. lia.
Qed.

Lemma superblock_block_size_pow sc :
  0 <= sc -> superblock_block_size sc = to_size_t (2 ^ sc).
Proof.
  intros Hsc. unfold superblock_block_size.
  rewrite block_size_loop_pow by lia.
  rewrite Z2Nat.id by lia. f_equal. lia.
Qed.

Lemma superblock_block_size_ge sc :
  ALLOC_HOARD_SIZE_CLASS_MIN <= sc -> superblock_block_size sc <> 0 ->
  sc < 64 /\ superblock_block_size sc = 2 ^ sc /\ 4 <= superblock_block_size sc.
Proof.
  unfold ALLOC_HOARD_SIZE_CLASS_MIN. intros Hsc Hnz.
  rewrite superblock_block_size_pow in * by lia.
  assert (Hlt : sc < 64).
  { destruct (Z_lt_dec sc 64) as [|Hge]; [assumption|]. exfalso. apply Hnz.
    replace sc with (64 + (sc - 64)) by lia.
    rewrite Z.pow_add_r by lia.
    unfold to_size_t, SIZE_T_BITS.
    rewrite Z.mul_comm. apply Z.mod_mul. lia. }
  split; [exact Hlt|].
  assert (2 ^ 2 <= 2 ^ sc) by (apply Z.pow_le_mono_r; lia).
  assert (2 ^ sc < 2 ^ 64) by (apply Z.pow_lt_mono_r; lia).
  rewrite to_size_t_small by lia.
  split; [reflexivity|]. change (2 ^ 2) with 4 in *. lia.
Qed.

Lemma put_page st hp h sb pg : pages (put st hp h sb pg) !! sb = Some pg.
Proof. unfold put. simpl. apply lookup_insert_eq. Qed.

Lemma put_heap st hp h0 h sb pg :
  heap_at st hp h0 -> heap_at (put st hp h sb pg) hp h.
Proof.
  intros [Hhp Hh]. split; [exact Hhp|]. unfold put. simpl.
  apply list_lookup_insert_eq. eapply lookup_lt_Some. exact Hh.
Qed.

Lemma superblock_init_inv sb hp sc st st0 h :
  sizeof_superblock_t <= mem_pagesize <= INT32_MAX ->
  ALLOC_HOARD_SIZE_CLASS_MIN <= sc ->
  heap_at st hp h ->
  superblock_init mem_pagesize sb hp sc st = Ok (tt, st0) ->
  sb_state_inv mem_pagesize sb hp st0 [].
Proof.
  intros Hpage Hsc Hheap Hinit.
  unfold superblock_init in Hinit.
  destruct (pages st !! sb) as [pg|] eqn:Hpg; [|discriminate].
  destruct (Z.eqb_spec (superblock_block_size sc) 0) as [|Hnz]; [discriminate|].
  destruct (superblock_block_size_ge sc Hsc Hnz) as (_ & _ & Hge).
  injection Hinit as <-.
  eexists _, h. split; [apply lookup_insert_eq|].
  split; [reflexivity|]. split; [exact Hheap|].
  assert (Hsz : to_size_t (superblock_size mem_pagesize - sizeof_superblock_t)
                = mem_pagesize - sizeof_superblock_t).
  { unfold superblock_size. apply to_size_t_small. unfold_sizes. lia. }
  unfold sb_inv. simpl. rewrite Hsz.
  set (bs := superblock_block_size sc) in *.
  assert (0 <= (mem_pagesize - sizeof_superblock_t) / bs).
  { apply Z.div_pos; unfold_sizes; lia. }
  assert (bs * ((mem_pagesize - sizeof_superblock_t) / bs)
          <= mem_pagesize - sizeof_superblock_t).
  { apply Z.mul_div_le. lia. }
  split; [|split].
  - constructor; simpl; unfold_sizes; unfold BLOCK_INVALID; lia.
  - reflexivity.
  - exists []. simpl. split; reflexivity.
Qed.

Lemma sb_step_inv sb hp c c' :
  sb_step mem_pagesize sb c c' ->
  sb_state_inv mem_pagesize sb hp c.1 c.2 -> sb_state_inv mem_pagesize sb hp c'.1 c'.2.
Proof.
  intros Hstep (pg & h & Hpg & Hhp & Hheap & Hinv).
  pose proof Hinv as (Hwf & Hused & _).
  subst hp.
  destruct Hstep as [st st' blk L Halloc Hblk | st st' L Halloc
                    | st st' blk L1 L2 Hfree]; simpl in *.
  - destruct (Z_lt_dec (block_used (header pg)) (block_count (header pg))) as [Hspare|Hfull].
    + rewrite (superblock_block_allocate_spare _ _ _ _ h Hpg Hwf Hheap Hspare) in Halloc.
      injection Halloc as <- <-.
      destruct (sb_inv_allocate _ _ _ Hinv Hspare) as [_ Hinv'].
      eexists _, _. split; [apply put_page|].
      split; [|split; [eapply put_heap; exact Hheap|exact Hinv']].
      unfold allocate_header. simpl. destruct (_ =? _); reflexivity.
    + rewrite (superblock_block_allocate_full _ _ _ _ Hpg ltac:(lia)) in Halloc.
      injection Halloc as <- <-. contradiction.
  - destruct (Z_lt_dec (block_used (header pg)) (block_count (header pg))) as [Hspare|Hfull].
    + rewrite (superblock_block_allocate_spare _ _ _ _ h Hpg Hwf Hheap Hspare) in Halloc.
      injection Halloc as E <-.
      destruct (sb_inv_allocate _ _ _ Hinv Hspare) as [Hne _]. congruence.
    + rewrite (superblock_block_allocate_full _ _ _ _ Hpg ltac:(lia)) in Halloc.
      injection Halloc as <-.
      exists pg, h. auto.
  - destruct (sb_inv_live _ pg _ blk Hinv) as (_ & Hcnt & Hpos).
    { apply elem_of_app. right. left. }
    rewrite (superblock_block_free_live _ _ _ _ h _ Hpg Hwf Hheap Hpos Hcnt) in Hfree.
    injection Hfree as <-.
    eexists _, _. split; [apply put_page|].
    split; [reflexivity|].
    split; [eapply put_heap; exact Hheap|].
    apply sb_inv_free. exact Hinv.
Qed.

Lemma sb_trace_inv sb hp c c' :
  rtc (sb_step mem_pagesize sb) c c' ->
  sb_state_inv mem_pagesize sb hp c.1 c.2 -> sb_state_inv mem_pagesize sb hp c'.1 c'.2.
Proof.
  induction 1 as [|c1 c2 c3 Hstep _ IH]; [auto|].
  intros Hinv. apply IH. eapply sb_step_inv; eassumption.
Qed.

(** The header of a superblock stays well-formed along such a sequence. *)
Lemma sb_trace_wf sb hp sc st h st0 st' L :
  sizeof_superblock_t <= mem_pagesize <= INT32_MAX ->
  ALLOC_HOARD_SIZE_CLASS_MIN <= sc ->
  heap_at st hp h ->
  superblock_init mem_pagesize sb hp sc st = Ok (tt, st0) ->
  rtc (sb_step mem_pagesize sb) (st0, []) (st', L) ->
  exists pg h', pages st' !! sb = Some pg /\ sb_wf mem_pagesize (header pg) /\
                heap_at st' (heap (header pg)) h'.
Proof.
  intros Hpage Hsc Hheap Hinit Htrace.
  pose proof (superblock_init_inv _ _ _ _ _ _ Hpage Hsc Hheap Hinit) as Hinv0.
  destruct (sb_trace_inv sb hp _ _ Htrace Hinv0) as (pg & h' & Hpg & Hhp & Hheap' & Hwf & _).
  simpl in *. subst hp. eauto.
Qed.

(** Every call issued in a state that satisfies the invariant returns. *)
Lemma sb_state_inv_progress sb hp st L :
  sb_state_inv mem_pagesize sb hp st L ->
  (exists blk st', superblock_block_allocate mem_pagesize sb st = Ok (blk, st')) /\
  (forall blk, blk ∈ L ->
     exists st', superblock_block_free mem_pagesize sb blk st = Ok (tt, st')).
Proof.
  intros (pg & h & Hpg & Hhp & Hheap & Hinv).
  pose proof Hinv as (Hwf & Hused & _). subst hp.
  split.
  - destruct (Z_lt_dec (block_used (header pg)) (block_count (header pg))) as [Hspare|Hfull].
    + eexists _, _. apply (superblock_block_allocate_spare _ _ _ _ h Hpg Hwf Hheap Hspare).
    + eexists _, _. apply (superblock_block_allocate_full _ _ _ _ Hpg). lia.
  - intros blk Hblk.
    destruct (sb_inv_live _ pg _ blk Hinv Hblk) as (_ & Hcnt & Hpos).
    eexists. apply (superblock_block_free_live _ _ _ _ h _ Hpg Hwf Hheap Hpos Hcnt).
Qed.

End SuperblockTraces.

(** ** The bounds, for any size class *)

Section SuperblockBounds.

Variable mem_pagesize : Z.

Local Ltac reduce_run H Hpg :=
  repeat progress
    (cbv beta iota zeta delta [pages ctx header bytes heap_table set_heap_table] in H;
     rewrite ?Hpg, ?lookup_insert_eq in H).

Local Ltac bool_to_prop :=
  repeat match goal with
         | H : negb _ = true |- _ => apply negb_true_iff in H
         | H : negb _ = false |- _ => apply negb_false_iff in H
         | H : (_ <=? _) = true |- _ => apply Z.leb_le in H
         | H : (_ <=? _) = false |- _ => apply Z.leb_gt in H
         | H : (_ <? _) = true |- _ => apply Z.ltb_lt in H
         | H : (_ <? _) = false |- _ => apply Z.ltb_ge in H
         | H : (_ =? _) = true |- _ => apply Z.eqb_eq in H
         | H : (_ =? _) = false |- _ => apply Z.eqb_neq in H
         end.

(** Case analysis on the tests and memory accesses of a computation that
    is known to have returned. *)
Local Ltac invert_run H Hpg :=
  reduce_run H Hpg;
  repeat (match type of H with
          | Fault _ = Ok _ => discriminate H
          | context [match ?x with _ => _ end] =>
              lazymatch x with
              | context [match _ with _ => _ end] => fail
              | _ => destruct x eqn:?
              end
          end; reduce_run H Hpg).

Lemma superblock_block_allocate_bounds st sb pg L blk st' :
  pages st !! sb = Some pg ->
  sb_bounds pg L ->
  superblock_block_allocate mem_pagesize sb st = Ok (blk, st') ->
  exists pg', pages st' !! sb = Some pg' /\
    ((blk = BLOCK_INVALID /\ sb_bounds pg' L) \/
     (blk <> BLOCK_INVALID /\ sb_bounds pg' (blk :: L))).
Proof.
  intros Hpg (Hnb & Hused & Hcnt & Hlen) Hrun.
  destruct st as [[bb hc ht] p]. destruct pg as [s m]. simpl in *.
  unfold superblock_block_allocate, superblock_freelist_pop, superblock_block_data,
    bind, read_sb, modify_sb, modify_heap, assert, load_blockptr, ret, raise in Hrun.
  invert_run Hrun Hpg.
  all: injection Hrun as <- <-.
  all: eexists; (split; [cbv beta iota delta [pages]; rewrite ?lookup_insert_eq;
                          first [reflexivity | exact Hpg]|]).
  all: unfold sb_bounds; cbn [header next_block block_used block_count set_block_used
                               set_next_block set_next_free length].
  all: cbn [heap next_block next_free block_used block_count block_size
             set_block_used] in *; bool_to_prop.
  all: try rewrite (to_size_t_small (block_used s + 1)) by (unfold_sizes; lia).
  all: rewrite ?Nat2Z.inj_succ; unfold BLOCK_INVALID in *; lia.
Qed.

Lemma superblock_block_free_bounds st sb pg L1 L2 blk st' :
  pages st !! sb = Some pg ->
  sb_bounds pg (L1 ++ blk :: L2) ->
  superblock_block_free mem_pagesize sb blk st = Ok (tt, st') ->
  exists pg', pages st' !! sb = Some pg' /\ sb_bounds pg' (L1 ++ L2).
Proof.
  intros Hpg (Hnb & Hused & Hcnt & Hlen) Hrun.
  destruct st as [[bb hc ht] p]. destruct pg as [s m]. simpl in *.
  unfold superblock_block_free, superblock_freelist_push, superblock_block_data,
    bind, read_sb, modify_sb, modify_heap, assert, store_blockptr, ret, raise in Hrun.
  invert_run Hrun Hpg.
  all: injection Hrun as <-.
  all: eexists; (split; [cbv beta iota delta [pages]; rewrite ?lookup_insert_eq;
                          first [reflexivity | exact Hpg]|]).
  all: unfold sb_bounds; cbn [header next_block block_used block_count set_block_used
                               set_next_block set_next_free].
  all: cbn [heap next_block next_free block_used block_count block_size
             set_block_used set_next_free] in *; bool_to_prop.
  all: rewrite length_app in *; cbn [length] in *.
  all: try rewrite (to_size_t_small (block_used s - 1)) by (unfold_sizes; lia).
  all: lia.
Qed.

Lemma superblock_init_bounds sb hp sc st st0 :
  superblock_init mem_pagesize sb hp sc st = Ok (tt, st0) ->
  exists pg, pages st0 !! sb = Some pg /\ sb_bounds pg [].
Proof.
  unfold superblock_init. intros Hinit.
  destruct (pages st !! sb) as [pg|] eqn:Hpg; [|discriminate].
  destruct (Z.eqb_spec (superblock_block_size sc) 0) as [|Hnz]; [discriminate|].
  injection Hinit as <-.
  eexists. split; [apply lookup_insert_eq|].
  unfold sb_bounds. simpl.
  set (bs := superblock_block_size sc) in *.
  set (n := to_size_t (superblock_size mem_pagesize - sizeof_superblock_t)).
  assert (Hn : 0 <= n < 2 ^ 64) by (apply Z.mod_pos_bound; lia).
  assert (Hbs : 0 < bs).
  { assert (0 <= bs); [|lia]. unfold bs, superblock_block_size.
    rewrite block_size_loop_pow by lia. apply Z.mod_pos_bound. unfold_sizes. lia. }
  assert (0 <= n / bs) by (apply Z.div_pos; lia).
  assert (n / bs <= n) by (apply Z.div_le_upper_bound; nia).
  unfold_sizes. lia.
Qed.

Lemma sb_step_bounds sb c c' pg :
  sb_step mem_pagesize sb c c' ->
  pages c.1 !! sb = Some pg -> sb_bounds pg c.2 ->
  exists pg', pages c'.1 !! sb = Some pg' /\ sb_bounds pg' c'.2.
Proof.
  intros Hstep Hpg Hb.
  destruct Hstep as [st st' blk L Halloc Hblk | st st' L Halloc
                    | st st' blk L1 L2 Hfree]; simpl in *.
  - destruct (superblock_block_allocate_bounds _ _ _ _ _ _ Hpg Hb Halloc)
      as (pg' & Hpg' & [[? _]|[_ Hb']]); [contradiction|].
    exists pg'. auto.
  - destruct (superblock_block_allocate_bounds _ _ _ _ _ _ Hpg Hb Halloc)
      as (pg' & Hpg' & [[_ Hb']|[? _]]); [|contradiction].
    exists pg'. auto.
  - exact (superblock_block_free_bounds _ _ _ _ _ _ _ Hpg Hb Hfree).
Qed.

Lemma sb_trace_bounds sb c c' :
  rtc (sb_step mem_pagesize sb) c c' ->
  (exists pg, pages c.1 !! sb = Some pg /\ sb_bounds pg c.2) ->
  exists pg', pages c'.1 !! sb = Some pg' /\ sb_bounds pg' c'.2.
Proof.
  induction 1 as [|c1 c2 c3 Hstep _ IH]; [auto|].
  intros (pg & Hpg & Hb). apply IH. eapply sb_step_bounds; eassumption.
Qed.

End SuperblockBounds.

(** ** Block allocation, block free and their sequences *)

Section SuperblockOperations.

Variable mem_pagesize : Z.

(** C2. Block allocation on a well-formed superblock returns
    [BLOCK_INVALID] exactly when [block_used] equals [block_count];
    otherwise it returns the head of the free list when there is one
    (and the list advances to the link stored in that block), else the
    watermark index (and the watermark advances by one); in both cases
    [block_used] grows by one and [block_size] is added to the owning
    heap's [mem_used]. *)
Theorem superblock_block_allocate_spec st sb pg h :
  pages st !! sb = Some pg ->
  sb_wf mem_pagesize (header pg) ->
  heap_at st (heap (header pg)) h ->
  exists blk st',
    superblock_block_allocate mem_pagesize sb st = Ok (blk, st') /\
    (blk = BLOCK_INVALID <-> block_used (header pg) = block_count (header pg)) /\
    (block_used (header pg) <> block_count (header pg) ->
     exists pg' h',
       pages st' !! sb = Some pg' /\
       heap_at st' (heap (header pg)) h' /\
       block_used (header pg') = block_used (header pg) + 1 /\
       mem_used h' = to_size_t (mem_used h + block_size (header pg)) /\
       (0 <= mem_used h -> mem_used h + block_size (header pg) < 2 ^ SIZE_T_BITS ->
        mem_used h' = mem_used h + block_size (header pg)) /\
       (next_free (header pg) <> BLOCK_INVALID ->
        blk = next_free (header pg) /\
        next_free (header pg') =
          load32 (bytes pg) (block_offset (header pg) (next_free (header pg))) /\
        next_block (header pg') = next_block (header pg)) /\
       (next_free (header pg) = BLOCK_INVALID ->
        blk = next_block (header pg) /\
        next_block (header pg') = next_block (header pg) + 1 /\
        next_free (header pg') = BLOCK_INVALID)).
Proof.
  intros Hpg Hwf Hheap.
  pose proof Hwf as [Wp Wbs Wfit Wused Wnb Wnf].
  destruct (Z_lt_dec (block_used (header pg)) (block_count (header pg))) as [Hspare|Hfull].
  - eexists _, _. split;
      [apply (superblock_block_allocate_spare _ _ _ _ h Hpg Hwf Hheap Hspare)|].
    assert (Hres : allocate_result (header pg) <> BLOCK_INVALID).
    { unfold allocate_result.
      destruct (Z.eqb_spec (next_free (header pg)) BLOCK_INVALID);
        [unfold BLOCK_INVALID; lia | assumption]. }
    split; [split; [intros; contradiction | lia]|].
    intros _. eexists _, _.
    split; [apply put_page|]. split; [eapply put_heap; exact Hheap|].
    destruct pg as [s m]. unfold allocate_header, allocate_result. simpl in *.
    destruct (Z.eqb_spec (next_free s) BLOCK_INVALID) as [Hnf|Hnf]; simpl.
    + repeat split; try reflexivity; try assumption; try contradiction.
      intros H0 Hlt. apply to_size_t_small. unfold_sizes. lia.
    + repeat split; try reflexivity; try contradiction.
      intros H0 Hlt. apply to_size_t_small. unfold_sizes. lia.
  - assert (Heq : block_used (header pg) = block_count (header pg)) by lia.
    eexists _, _. split;
      [apply (superblock_block_allocate_full _ _ _ _ Hpg); lia|].
    split; [split; [intros; exact Heq | reflexivity]|].
    intros; contradiction.
Qed.

(** C10. A block allocation on a superblock whose [block_used] equals
    [block_count] returns [BLOCK_INVALID] and leaves the whole state as it
    was: the superblock's [block_used], [next_block] and [next_free] and
    the owning heap's [mem_used] keep their values. *)
Theorem superblock_block_allocate_full_unchanged st sb pg :
  pages st !! sb = Some pg ->
  block_used (header pg) = block_count (header pg) ->
  exists st',
    superblock_block_allocate mem_pagesize sb st = Ok (BLOCK_INVALID, st') /\
    st' = st /\
    pages st' !! sb = Some pg /\
    heap_table (ctx st') = heap_table (ctx st).
Proof.
  intros Hpg Hfull. exists st.
  split; [apply (superblock_block_allocate_full _ _ _ _ Hpg); lia|].
  auto.
Qed.

(** C6. From an initialized superblock, after any sequence of block
    allocations and frees of live indices, the list of live block indices
    has no duplicate and holds only indices below [block_count]; an
    allocation issued next returns an index that is not live; and every
    call of such a sequence returns. *)
Theorem live_block_indices_unique sb hp sc st h st0 st' L :
  sizeof_superblock_t <= mem_pagesize <= INT32_MAX ->
  ALLOC_HOARD_SIZE_CLASS_MIN <= sc ->
  heap_at st hp h ->
  superblock_init mem_pagesize sb hp sc st = Ok (tt, st0) ->
  rtc (sb_step mem_pagesize sb) (st0, []) (st', L) ->
  NoDup L /\
  (exists pg, pages st' !! sb = Some pg /\
              Forall (fun b => 0 <= b < block_count (header pg)) L /\
              forall blk st'',
                superblock_block_allocate mem_pagesize sb st' = Ok (blk, st'') ->
                blk <> BLOCK_INVALID ->
                (blk ∉ L) /\ 0 <= blk < block_count (header pg)) /\
  (exists blk st'', superblock_block_allocate mem_pagesize sb st' = Ok (blk, st'')) /\
  (forall blk, blk ∈ L ->
     exists st'', superblock_block_free mem_pagesize sb blk st' = Ok (tt, st'')).
Proof.
  intros Hpage Hsc Hheap Hinit Htrace.
  pose proof (superblock_init_inv _ _ _ _ _ _ _ Hpage Hsc Hheap Hinit) as Hinv0.
  pose proof (sb_trace_inv _ sb hp _ _ Htrace Hinv0) as Hinv. simpl in Hinv.
  pose proof Hinv as (pg & h' & Hpg & Hhp & Hheap' & Hsb).
  destruct (sb_inv_NoDup _ _ _ Hsb) as [Hnd Hall].
  split; [exact Hnd|]. split.
  - exists pg. split; [exact Hpg|]. split; [exact Hall|].
    intros blk st'' Halloc Hblk.
    assert (Hstep : sb_step mem_pagesize sb (st', L) (st'', blk :: L))
      by (constructor; assumption).
    pose proof (sb_step_inv _ sb hp _ _ Hstep Hinv) as (pg' & h'' & Hpg' & _ & _ & Hsb').
    simpl in *.
    destruct (sb_inv_NoDup _ _ _ Hsb') as [Hnd' Hall'].
    apply NoDup_cons in Hnd'. split; [tauto|].
    apply Forall_cons in Hall'. destruct Hall' as [Hr _].
    (* the capacity of a superblock never changes *)
    destruct (Z_lt_dec (block_used (header pg)) (block_count (header pg))) as [Hspare|Hfull].
    + destruct Hsb as (Hwf & _). subst hp.
      rewrite (superblock_block_allocate_spare _ _ _ _ h' Hpg Hwf Hheap' Hspare) in Halloc.
      injection Halloc as _ <-. rewrite put_page in Hpg'. injection Hpg' as <-.
      unfold allocate_header in Hr. simpl in Hr.
      destruct (_ =? _) in Hr; exact Hr.
    + rewrite (superblock_block_allocate_full _ _ _ _ Hpg ltac:(lia)) in Halloc.
      injection Halloc as <- _. contradiction.
  - apply (sb_state_inv_progress _ sb hp). exact Hinv.
Qed.

(** C7. From an initialized superblock, after any sequence of block
    allocations and frees of live indices, [0 <= block_used <= block_count]
    holds, and [block_used] is the number of live blocks. *)
Theorem block_used_bounded sb hp sc st st0 st' L :
  superblock_init mem_pagesize sb hp sc st = Ok (tt, st0) ->
  rtc (sb_step mem_pagesize sb) (st0, []) (st', L) ->
  exists pg, pages st' !! sb = Some pg /\
             0 <= block_used (header pg) <= block_count (header pg) /\
             block_used (header pg) = Z.of_nat (length L).
Proof.
  intros Hinit Htrace.
  pose proof (superblock_init_bounds _ _ _ _ _ _ Hinit) as H0.
  destruct (sb_trace_bounds _ sb _ _ Htrace H0) as (pg & Hpg & _ & Hb & _ & Hlen).
  exists pg. auto.
Qed.

End SuperblockOperations.

Section FreeListReuse.

Variable mem_pagesize : Z.

(** C8. On a freshly initialized superblock with room for two blocks,
    allocate A, allocate B, free A, allocate C: C is A's index, taken
    from the free list (the watermark stays where B left it), B is a
    different index, and no byte of block B changes. *)
Theorem freelist_reuse_is_lifo sb hp sc st h st0 pg0 :
  sizeof_superblock_t <= mem_pagesize <= INT32_MAX ->
  ALLOC_HOARD_SIZE_CLASS_MIN <= sc ->
  heap_at st hp h ->
  superblock_init mem_pagesize sb hp sc st = Ok (tt, st0) ->
  pages st0 !! sb = Some pg0 ->
  2 <= block_count (header pg0) ->
  exists A B C st1 st2 st3 st4 pg2 pg4,
    superblock_block_allocate mem_pagesize sb st0 = Ok (A, st1) /\
    superblock_block_allocate mem_pagesize sb st1 = Ok (B, st2) /\
    superblock_block_free mem_pagesize sb A st2 = Ok (tt, st3) /\
    superblock_block_allocate mem_pagesize sb st3 = Ok (C, st4) /\
    A <> BLOCK_INVALID /\ B <> BLOCK_INVALID /\ A <> B /\
    C = A /\
    pages st2 !! sb = Some pg2 /\ pages st4 !! sb = Some pg4 /\
    next_block (header pg4) = next_block (header pg2) /\
    C < next_block (header pg2) /\
    (forall off,
        block_offset (header pg2) B <= off
                                     < block_offset (header pg2) B + block_size (header pg2) ->
        bytes pg4 off = bytes pg2 off).
Proof.
  intros Hpage Hsc Hheap Hinit Hpg0 Hcount.
  pose proof (superblock_init_inv _ _ _ _ _ _ _ Hpage Hsc Hheap Hinit)
    as (pg0' & h0 & Hpg0' & Hhp & Hheap0 & Hinv0).
  rewrite Hpg0 in Hpg0'. injection Hpg0' as <-.
  (* the header that superblock_init wrote *)
  assert (Hhdr : block_used (header pg0) = 0 /\ next_block (header pg0) = 0 /\
                 next_free (header pg0) = BLOCK_INVALID).
  { unfold superblock_init in Hinit.
    destruct (pages st !! sb) as [pg|]; [|discriminate].
    destruct (superblock_block_size sc =? 0); [discriminate|].
    injection Hinit as <-. simpl in Hpg0. rewrite lookup_insert_eq in Hpg0.
    injection Hpg0 as <-. simpl. auto. }
  destruct Hhdr as (Hu0 & Hnb0 & Hnf0).
  destruct pg0 as [s0 m0]. simpl in *. subst hp.
  (* allocate A *)
  pose proof Hinv0 as (Hwf0 & _).
  pose proof (superblock_block_allocate_spare mem_pagesize st0 sb _ h0 Hpg0 Hwf0 Hheap0
                ltac:(simpl; lia)) as HA.
  destruct (sb_inv_allocate mem_pagesize _ _ Hinv0 ltac:(simpl; lia)) as [HAne Hinv1].
  cbn [header bytes] in HA, HAne, Hinv1.
  set (st1 := put st0 _ _ sb _) in HA.
  set (pg1 := mk_page (allocate_header (mk_page s0 m0)) m0) in *.
  assert (Hpg1 : pages st1 !! sb = Some pg1) by apply put_page.
  assert (Hheap1 : heap_at st1 (heap s0) _) by (eapply put_heap; exact Hheap0).
  assert (Hs1 : header pg1 = set_next_block 1 (set_block_used 1 s0)).
  { unfold pg1, allocate_header. simpl. rewrite Hnf0, Hu0, Hnb0. reflexivity. }
  assert (EA : allocate_result s0 = 0).
  { unfold allocate_result. rewrite Hnf0, Hnb0. reflexivity. }
  rewrite EA in HA, HAne, Hinv1.
  (* allocate B *)
  pose proof Hinv1 as (Hwf1 & _).
  assert (Hspare1 : block_used (header pg1) < block_count (header pg1)).
  { rewrite Hs1. simpl. lia. }
  assert (Hh1 : heap (header pg1) = heap s0) by (rewrite Hs1; reflexivity).
  rewrite <- Hh1 in Hheap1.
  pose proof (superblock_block_allocate_spare mem_pagesize st1 sb _ _ Hpg1 Hwf1 Hheap1
                Hspare1) as HB.
  destruct (sb_inv_allocate mem_pagesize _ _ Hinv1 Hspare1) as [HBne Hinv2].
  set (st2 := put st1 _ _ sb _) in HB.
  set (pg2 := mk_page (allocate_header pg1) (bytes pg1)) in *.
  assert (Hpg2 : pages st2 !! sb = Some pg2) by apply put_page.
  assert (Hheap2 : heap_at st2 (heap (header pg1)) _) by (eapply put_heap; exact Hheap1).
  assert (Hs2 : header pg2 = set_next_block 2 (set_block_used 2 s0)).
  { unfold pg2, allocate_header. rewrite Hs1. simpl. rewrite Hnf0. reflexivity. }
  assert (EB : allocate_result (header pg1) = 1).
  { unfold allocate_result. rewrite Hs1. simpl. rewrite Hnf0. reflexivity. }
  rewrite EB in HB, HBne, Hinv2.
  (* free A *)
  pose proof Hinv2 as (Hwf2 & _).
  assert (Hh2 : heap (header pg2) = heap (header pg1)) by (rewrite Hs2, Hs1; reflexivity).
  rewrite <- Hh2 in Hheap2.
  pose proof (superblock_block_free_live mem_pagesize st2 sb _ _ 0 Hpg2 Hwf2 Hheap2
                ltac:(rewrite Hs2; simpl; lia) ltac:(rewrite Hs2; simpl; lia)) as HF.
  pose proof (sb_inv_free mem_pagesize pg2 [1] [] 0 Hinv2) as Hinv3.
  set (st3 := put st2 _ _ sb _) in HF.
  set (pg3 := free_page pg2 0) in *.
  assert (Hpg3 : pages st3 !! sb = Some pg3) by apply put_page.
  assert (Hheap3 : heap_at st3 (heap (header pg2)) _) by (eapply put_heap; exact Hheap2).
  assert (Hs3 : header pg3 = set_next_free 0 (set_next_block 2 (set_block_used 1 s0))).
  { unfold pg3, free_page. rewrite Hs2. reflexivity. }
  (* allocate C *)
  pose proof Hinv3 as (Hwf3 & _).
  assert (Hspare3 : block_used (header pg3) < block_count (header pg3)).
  { rewrite Hs3. simpl. lia. }
  assert (Hh3 : heap (header pg3) = heap (header pg2)) by (rewrite Hs3, Hs2; reflexivity).
  rewrite <- Hh3 in Hheap3.
  pose proof (superblock_block_allocate_spare mem_pagesize st3 sb _ _ Hpg3 Hwf3 Hheap3
                Hspare3) as HC.
  set (st4 := put st3 _ _ sb _) in HC.
  assert (EC : allocate_result (header pg3) = 0).
  { unfold allocate_result. rewrite Hs3. reflexivity. }
  rewrite EC in HC.
  exists 0, 1, 0, st1, st2, st3, st4, pg2, (mk_page (allocate_header pg3) (bytes pg3)).
  split; [exact HA|]. split; [exact HB|]. split; [exact HF|]. split; [exact HC|].
  split; [exact HAne|]. split; [exact HBne|]. split; [lia|]. split; [reflexivity|].
  split; [exact Hpg2|]. split; [apply put_page|].
  split; [|split].
  - unfold allocate_header. rewrite Hs3, Hs2. reflexivity.
  - rewrite Hs2. simpl. lia.
  - intros off Hoff. rewrite Hs2 in Hoff. unfold block_offset in Hoff. simpl in Hoff.
    unfold pg3, free_page. simpl.
    change (allocate_header pg1) with (header pg2). rewrite Hs2.
    unfold block_offset. simpl.
    destruct Hwf0 as [_ Wbs _ _ _ _]. simpl in Wbs.
    apply store32_other. unfold_sizes. lia.
Qed.

End FreeListReuse.

(** C9. [mm_free] returns and leaves the whole allocator state as it
    was, whatever address it is given: the context with every heap's
    statistics and bins, and every superblock. *)
Theorem mm_free_is_noop (ptr : pointer) (st : state) :
  exists st', mm_free ptr st = Ok (tt, st') /\
              st' = st /\ ctx st' = ctx st /\
              heap_table (ctx st') = heap_table (ctx st) /\
              pages st' = pages st.
Proof. exists st. repeat split. Qed.

(** ** Heap selection and the allocation search *)

Lemma context_heap_index st threadid :
  0 < heap_count (ctx st) < 2 ^ 31 -> 0 <= threadid < 2 ^ 32 ->
  context_heap threadid st = Ok (1 + threadid mod heap_count (ctx st), st) /\
  1 <= 1 + threadid mod heap_count (ctx st) <= heap_count (ctx st).
Proof.
  intros Hc Ht. unfold context_heap, to_uint32.
  rewrite (Z.mod_small (heap_count (ctx st))) by lia.
  destruct (Z.eqb_spec (heap_count (ctx st)) 0); [lia|].
  pose proof (Z.mod_pos_bound threadid (heap_count (ctx st)) ltac:(lia)).
  rewrite Z.mod_small by lia.
  split; [reflexivity|lia].
Qed.

Lemma foldl_insert_lookup_other {A} (t : list A) (x : A) (l : list Z) (k : nat) :
  (forall i, i ∈ l -> Z.to_nat i <> k) ->
  foldl (fun t i => <[Z.to_nat i := x]> t) t l !! k = t !! k.
Proof.
  revert t. induction l as [|i l IH]; intros t Hl; simpl; [reflexivity|].
  rewrite IH by (intros j Hj; apply Hl; right; exact Hj).
  apply list_lookup_insert_ne. apply Hl. left.
Qed.

(** The slot that [context_heap] returns for thread identity
    [heap_count - 1] is the one after the last slot [context_init] set up. *)
Lemma context_init_last_slot pagesize nprocs ctx_addr :
  1 <= nprocs ->
  heap_table (context_init pagesize nprocs ctx_addr (raw_context nprocs))
    !! Z.to_nat (nprocs * ALLOC_HOARD_HEAP_CPU_FACTOR) = Some None.
Proof.
  intros Hn. unfold context_init, raw_context, ALLOC_HOARD_HEAP_CPU_FACTOR.
  cbn [heap_table].
  rewrite foldl_insert_lookup_other.
  - rewrite list_lookup_insert_ne by lia.
    apply lookup_replicate. split; [reflexivity|lia].
  - intros i Hi. unfold context_init_slots in Hi. apply elem_of_seqZ in Hi. lia.
Qed.

(** The inner loop of the scan writes nothing, reads only the superblock
    pages, and a superblock it returns has the size class asked for and
    spare capacity. *)
Lemma context_malloc_scan_bin_selects fuel sb sizecls st r st' :
  context_malloc_scan_bin fuel sb sizecls st = Ok (r, st') ->
  st' = st /\
  (r <> NULL ->
   exists pg, pages st !! r = Some pg /\ size_class (header pg) = sizecls /\
              block_used (header pg) < block_count (header pg)).
Proof.
  revert sb. induction fuel as [|fuel IH]; intros sb Hrun; simpl in Hrun.
  - destruct (Z.eqb_spec sb NULL); [|discriminate].
    injection Hrun as <- <-. split; [reflexivity|contradiction].
  - destruct (Z.eqb_spec sb NULL).
    { injection Hrun as <- <-. split; [reflexivity|contradiction]. }
    unfold bind, read_sb in Hrun.
    destruct (pages st !! sb) as [pg|] eqn:Hpg; [|discriminate].
    destruct (Z.eqb_spec (size_class (header pg)) sizecls) as [Hsc|];
      [destruct (Z.ltb_spec (block_used (header pg)) (block_count (header pg)))|];
      simpl in Hrun; try (apply IH in Hrun; exact Hrun).
    injection Hrun as <- <-. split; [reflexivity|]. intros _. eauto.
Qed.

Lemma context_malloc_scan_bin_pages fuel sb sizecls st st' :
  pages st' = pages st ->
  returned (context_malloc_scan_bin fuel sb sizecls st')
  = returned (context_malloc_scan_bin fuel sb sizecls st).
Proof.
  intros Hp. revert sb. induction fuel as [|fuel IH]; intros sb; simpl.
  - destruct (sb =? NULL); reflexivity.
  - destruct (sb =? NULL); [reflexivity|].
    unfold bind, read_sb. rewrite Hp.
    destruct (pages st !! sb) as [pg|]; [|reflexivity].
    destruct (_ && _); [reflexivity|]. apply IH.
Qed.

(** The scan returns the same value whatever bin 0 of the heap holds:
    storing any [x] there changes nothing, from any value of [group]. *)
Lemma context_malloc_scan_ignores_bin_0 group hp h x sizecls st :
  heap_at st hp h ->
  returned (context_malloc_scan group hp sizecls
              (mk_state (set_heap_table
                           (<[Z.to_nat hp := Some (set_bins (<[0%nat := x]> (bins h)) h)]>
                              (heap_table (ctx st)))
                           (ctx st))
                        (pages st)))
  = returned (context_malloc_scan group hp sizecls st).
Proof.
  intros [Hhp Hh].
  set (st' := mk_state _ (pages st)).
  assert (Hh' : heap_table (ctx st') !! Z.to_nat hp
                = Some (Some (set_bins (<[0%nat := x]> (bins h)) h))).
  { unfold st'. simpl. apply list_lookup_insert_eq. eapply lookup_lt_Some. exact Hh. }
  induction group as [|group IH]; [reflexivity|].
  cbn [context_malloc_scan]. unfold bind, read_heap.
  destruct (Z.ltb_spec hp 0); [lia|]. rewrite Hh, Hh'.
  unfold bins_read. cbn [bins set_bins].
  destruct (_ && _); [|reflexivity].
  rewrite list_lookup_insert_ne by lia.
  destruct (bins h !! Z.to_nat (Z.of_nat (S group))) as [first|]; [|reflexivity].
  unfold ret.
  pose proof (context_malloc_scan_bin_pages (S (size (pages st))) first sizecls st st'
                eq_refl) as Hbin.
  change (pages st') with (pages st).
  destruct (context_malloc_scan_bin (S (size (pages st))) first sizecls st')
    as [[r1 s1]|f1] eqn:E1;
    destruct (context_malloc_scan_bin (S (size (pages st))) first sizecls st)
    as [[r2 s2]|f2] eqn:E2; simpl in Hbin; try discriminate.
  - injection Hbin as ->.
    apply context_malloc_scan_bin_selects in E1. destruct E1 as [-> _].
    apply context_malloc_scan_bin_selects in E2. destruct E2 as [-> _].
    destruct (negb (r2 =? NULL)); [reflexivity|exact IH].
  - exact Hbin.
Qed.



(** When the scan finds no superblock, [context_malloc] reaches its end
    without a return statement. *)
Lemma context_malloc_serve_null pagesize st :
  context_malloc_serve pagesize context_globalheap NULL st = Fault NoReturnValue
  \/ exists f, read_heap context_globalheap st = Fault f.
Proof.
  unfold context_malloc_serve, bind. simpl.
  destruct (read_heap context_globalheap st) as [[g st']|f]; [left|right; eauto].
  destruct (heap_full g); reflexivity.
Qed.

(** C4 (failing input). With one processor the table has three slots and
    [mm_init] succeeds, its [context_init] setting up slots 0 and 1; for
    thread identity 1 [context_heap] returns slot 2, which no [heap_init]
    has touched. *)
Theorem context_heap_uninitialized_slot :
  mm_init example_pagesize 1 4096 (raw_context 1) = (0, example_context) /\
  context_heap 1 example_fresh_state = Ok (2, example_fresh_state) /\
  context_init_slots (heap_count example_context) = [1] /\
  heap_table example_context !! 2%nat = Some None /\
  read_heap 2 example_fresh_state = Fault UninitializedRead.
Proof. repeat split. Qed.

(** C3 (failing input). Heap 1 holds in bin 0 a superblock of class 3
    with spare capacity, which the inner loop accepts; the scan starts
    at [bins[4]], outside the array, and its iterations for groups 3, 2
    and 1 end without a superblock: bin 0 is never read. *)
Theorem context_malloc_scan_skips_bin_0 :
  context_malloc_scan_bin 2 8192 3 example_bin0_state = Ok (8192, example_bin0_state) /\
  context_malloc_scan (Z.to_nat ALLOC_HOARD_FULLNESS_GROUPS) 1 3 example_bin0_state
  = Fault OutOfBounds /\
  context_malloc_scan 3 1 3 example_bin0_state = Ok (NULL, example_bin0_state).
Proof. repeat split. Qed.

(** C5 (failing input). After initialization with one processor, a
    request of 8 bytes by the thread of identity 0 does not return a null
    pointer: the scan reads outside the bins array, and the code that
    follows a scan without result ends without returning a value. *)
Theorem mm_malloc_without_superblock :
  8 <= superblock_size example_pagesize / 2 /\
  mm_malloc example_pagesize 0 8 example_fresh_state = Fault OutOfBounds /\
  context_malloc_serve example_pagesize context_globalheap NULL example_fresh_state
  = Fault NoReturnValue.
Proof. repeat split. vm_compute. discriminate. Qed.

(** ** The theorems at the concrete configuration *)

Lemma util_sizeclass_minimal_witness :
  0 < 5 < 2 ^ 64 /\ 2 <= util_sizeclass 5 /\ 5 <= 2 ^ util_sizeclass 5.
Proof.
  assert (H : 0 < 5 < 2 ^ 64) by (split; reflexivity).
  split; [exact H|].
  pose proof (util_sizeclass_minimal 5 H) as (H2 & Hge & _).
  split; assumption.
Defined.

Lemma example_superblock_wf : sb_wf example_pagesize (header example_superblock).
Proof.
  constructor; simpl; unfold example_pagesize, INT32_MAX, sizeof_blockptr_t,
    sizeof_superblock_t, BLOCK_INVALID; lia.
Defined.

Lemma example_heap_at : heap_at example_bin0_state 1 (set_bins [8192; NULL; NULL; NULL] heap_init).
Proof. split; [lia | reflexivity]. Defined.

Lemma superblock_block_allocate_spec_witness :
  pages example_bin0_state !! 8192 = Some example_superblock /\
  exists blk st',
    superblock_block_allocate example_pagesize 8192 example_bin0_state = Ok (blk, st') /\
    (blk = BLOCK_INVALID <-> 0 = 504).
Proof.
  assert (Hpg : pages example_bin0_state !! 8192 = Some example_superblock) by reflexivity.
  split; [exact Hpg|].
  destruct (superblock_block_allocate_spec example_pagesize example_bin0_state 8192
              example_superblock _ Hpg example_superblock_wf example_heap_at)
    as (blk & st' & Hrun & Hiff & _).
  exists blk, st'. split; [exact Hrun | exact Hiff].
Defined.

Lemma superblock_block_allocate_full_unchanged_witness :
  pages example_full_state !! 8192 = Some example_full_superblock /\
  block_used (header example_full_superblock) = block_count (header example_full_superblock) /\
  superblock_block_allocate example_pagesize 8192 example_full_state
  = Ok (BLOCK_INVALID, example_full_state).
Proof.
  assert (Hpg : pages example_full_state !! 8192 = Some example_full_superblock)
    by reflexivity.
  assert (Hfull : block_used (header example_full_superblock)
                  = block_count (header example_full_superblock)) by reflexivity.
  split; [exact Hpg|]. split; [exact Hfull|].
  destruct (superblock_block_allocate_full_unchanged example_pagesize example_full_state
              8192 example_full_superblock Hpg Hfull) as (st' & Hrun & -> & _).
  exact Hrun.
Defined.

Lemma example_state_heap_at : heap_at example_state 1 heap_init.
Proof. split; [lia | reflexivity]. Defined.

Lemma example_page_bounds : sizeof_superblock_t <= example_pagesize <= INT32_MAX.
Proof. unfold sizeof_superblock_t, example_pagesize, INT32_MAX. lia. Defined.

Lemma example_size_class : ALLOC_HOARD_SIZE_CLASS_MIN <= 3.
Proof. unfold ALLOC_HOARD_SIZE_CLASS_MIN. lia. Defined.

Lemma example_trace :
  superblock_init example_pagesize 8192 1 3 example_state = Ok (tt, example_trace_0) /\
  rtc (sb_step example_pagesize 8192) (example_trace_0, []) (example_trace_4, [0; 1]).
Proof.
  split; [reflexivity|].
  eapply rtc_l;
    [apply (step_allocate _ _ example_trace_0 example_trace_1 0 []);
     [reflexivity | discriminate]|].
  eapply rtc_l;
    [apply (step_allocate _ _ example_trace_1 example_trace_2 1 [0]);
     [reflexivity | discriminate]|].
  eapply rtc_l;
    [apply (step_free _ _ example_trace_2 example_trace_3 0 [1] []);
     reflexivity|].
  eapply rtc_l;
    [apply (step_allocate _ _ example_trace_3 example_trace_4 0 [1]);
     [reflexivity | discriminate]|].
  apply rtc_refl.
Qed.

Lemma live_block_indices_unique_witness : NoDup [0; 1].
Proof.
  destruct example_trace as (Hinit & Htrace).
  exact (proj1 (live_block_indices_unique example_pagesize 8192 1 3 example_state
                  heap_init example_trace_0 example_trace_4 [0; 1]
                  example_page_bounds example_size_class
                  example_state_heap_at Hinit Htrace)).
Defined.

Lemma block_used_bounded_witness :
  exists pg, pages example_trace_4 !! 8192 = Some pg /\
             0 <= block_used (header pg) <= block_count (header pg) /\
             block_used (header pg) = 2.
Proof.
  destruct example_trace as (Hinit & Htrace).
  exact (block_used_bounded example_pagesize 8192 1 3 example_state
           example_trace_0 example_trace_4 [0; 1] Hinit Htrace).
Defined.

Lemma freelist_reuse_is_lifo_witness :
  superblock_init example_pagesize 8192 1 3 example_state = Ok (tt, example_trace_0) /\
  exists A B C st1 st2 st3 st4,
    superblock_block_allocate example_pagesize 8192 example_trace_0 = Ok (A, st1) /\
    superblock_block_allocate example_pagesize 8192 st1 = Ok (B, st2) /\
    superblock_block_free example_pagesize 8192 A st2 = Ok (tt, st3) /\
    superblock_block_allocate example_pagesize 8192 st3 = Ok (C, st4) /\
    C = A /\ A <> B.
Proof.
  assert (Hinit : superblock_init example_pagesize 8192 1 3 example_state
                  = Ok (tt, example_trace_0)) by reflexivity.
  assert (Hpg : pages example_trace_0 !! 8192
                = Some (example_page 0 0 BLOCK_INVALID (fun _ => 0))) by reflexivity.
  assert (Hroom : 2 <= block_count (header (example_page 0 0 BLOCK_INVALID (fun _ => 0))))
    by (simpl; lia).
  split; [exact Hinit|].
  destruct (freelist_reuse_is_lifo example_pagesize 8192 1 3 example_state heap_init
              example_trace_0 _ example_page_bounds example_size_class
              example_state_heap_at Hinit Hpg Hroom)
    as (A & B & C & st1 & st2 & st3 & st4 & pg2 & pg4 & HA & HB & HF & HC
        & _ & _ & HAB & HCA & _).
  exists A, B, C, st1, st2, st3, st4. auto 10.
Defined.

(** * Further properties *)

(** ** Page alignment and the size of the context *)

(** X1. For a positive page size and a size that is at least a page below
    the [size_t] range, [util_pagealigned] returns the least multiple of
    the page size that is not below the size; a size that is already a
    multiple is returned as it is. *)
Theorem util_pagealigned_least_multiple pagesize size :
  0 < pagesize -> 0 <= size -> size + pagesize <= 2 ^ SIZE_T_BITS ->
  util_pagealigned pagesize size mod pagesize = 0 /\
  size <= util_pagealigned pagesize size < size + pagesize /\
  (forall r, size <= r -> r mod pagesize = 0 -> util_pagealigned pagesize size <= r) /\
  (size mod pagesize = 0 -> util_pagealigned pagesize size = size) /\
  util_pagealigned pagesize (util_pagealigned pagesize size)
  = util_pagealigned pagesize size.
Proof.
  intros Hp Hs Hfit. unfold SIZE_T_BITS in Hfit.
  assert (Hspec : forall sz, 0 <= sz -> sz + pagesize <= 2 ^ 64 ->
            util_pagealigned pagesize sz
            = if 0 <? sz mod pagesize then sz + (pagesize - sz mod pagesize) else sz).
  { intros sz H0 H1. unfold util_pagealigned.
    pose proof (Z.mod_pos_bound sz pagesize Hp) as Hm.
    destruct (Z.ltb_spec 0 (sz mod pagesize)).
    - rewrite (to_size_t_small (pagesize - _)) by lia.
      apply to_size_t_small. lia.
    - replace (sz mod pagesize) with 0 by lia. rewrite Z.add_0_r.
      apply to_size_t_small. lia. }
  pose proof (Z.mod_pos_bound size pagesize Hp) as Hm.
  pose proof (Z.div_mod size pagesize ltac:(lia)) as Hdm.
  assert (Hal : util_pagealigned pagesize size mod pagesize = 0).
  { rewrite Hspec by lia. destruct (Z.ltb_spec 0 (size mod pagesize)).
    - replace (size + (pagesize - size mod pagesize))
        with ((size / pagesize + 1) * pagesize) by lia.
      apply Z.mod_mul. lia.
    - lia. }
  assert (Hrange : size <= util_pagealigned pagesize size < size + pagesize).
  { rewrite Hspec by lia. destruct (Z.ltb_spec 0 (size mod pagesize)); lia. }
  split; [exact Hal|]. split; [exact Hrange|]. split; [|split].
  - intros r Hr Hrm. rewrite Hspec by lia.
    pose proof (Z.div_mod r pagesize ltac:(lia)) as Hdr. rewrite Hrm in Hdr.
    destruct (Z.ltb_spec 0 (size mod pagesize)); [|lia].
    assert (size / pagesize < r / pagesize) by nia. nia.
  - intros Hz. rewrite Hspec by lia. rewrite Hz. reflexivity.
  - assert (Hr0 : 0 <= util_pagealigned pagesize size) by lia.
    destruct (Z_le_dec (util_pagealigned pagesize size + pagesize) (2 ^ 64)) as [Hle|Hgt].
    + rewrite (Hspec (util_pagealigned pagesize size)) by lia.
      rewrite Hal. reflexivity.
    + (* the aligned size is the last multiple below 2^64 *)
      unfold util_pagealigned at 1. rewrite Hal. simpl.
      rewrite Z.add_0_r. apply to_size_t_small. lia.
Qed.

Lemma util_pagealigned_least_multiple_witness :
  util_pagealigned 4096 304 = 4096 /\ util_pagealigned 4096 8192 = 8192.
Proof.
  assert (H1 : (0 : Z) < 4096) by lia.
  assert (H2 : (0 : Z) <= 304) by lia.
  assert (H3 : 304 + 4096 <= 2 ^ SIZE_T_BITS) by (unfold SIZE_T_BITS; lia).
  destruct (util_pagealigned_least_multiple 4096 304 H1 H2 H3)
    as (Hm & Hr & Hleast & _ & _).
  split; [|reflexivity].
  apply Z.le_antisymm.
  - apply Hleast; [lia | reflexivity].
  - assert (util_pagealigned 4096 304 <> 0) by lia.
    pose proof (Z.div_mod (util_pagealigned 4096 304) 4096 ltac:(lia)) as E.
    rewrite Hm in E. lia.
Defined.

(** X2. The region reserved for the context is a whole number of pages
    and holds the context structure, whose table has one heap slot,
    followed by two more heap slots per processor. *)
Theorem context_size_holds_heap_table pagesize nprocs :
  0 < pagesize < 2 ^ 31 -> 0 <= nprocs < 2 ^ 31 ->
  context_size pagesize nprocs mod pagesize = 0 /\
  sizeof_context_t + sizeof_heap_t * (nprocs * ALLOC_HOARD_HEAP_CPU_FACTOR)
  <= context_size pagesize nprocs
  < sizeof_context_t + sizeof_heap_t * (nprocs * ALLOC_HOARD_HEAP_CPU_FACTOR) + pagesize.
Proof.
  intros Hp Hn. unfold context_size, sizeof_context_t, sizeof_heap_t,
    ALLOC_HOARD_HEAP_CPU_FACTOR.
  rewrite (to_size_t_small nprocs) by lia.
  rewrite (to_size_t_small (96 * nprocs)) by lia.
  rewrite (to_size_t_small (96 * nprocs * 2)) by lia.
  rewrite (to_size_t_small (112 + _)) by lia.
  destruct (util_pagealigned_least_multiple pagesize (112 + 96 * nprocs * 2))
    as (Hm & Hr & _); [lia | lia | unfold SIZE_T_BITS; lia |].
  split; [exact Hm|]. lia.
Qed.

Lemma context_size_holds_heap_table_witness :
  context_size 4096 1 mod 4096 = 0 /\ 304 <= context_size 4096 1 < 304 + 4096.
Proof.
  exact (context_size_holds_heap_table 4096 1 ltac:(lia) ltac:(lia)).
Defined.

(** ** The heap table *)

Lemma foldl_insert_lookup_in {A} (t : list A) (x : A) (l : list Z) (k : nat) :
  k ∈ Z.to_nat <$> l -> (k < length t)%nat ->
  foldl (fun t i => <[Z.to_nat i := x]> t) t l !! k = Some x.
Proof.
  revert t. induction l as [|i l IH]; intros t Hk Hlen; simpl.
  - inversion Hk.
  - destruct (decide (k ∈ Z.to_nat <$> l)) as [Hin|Hnin].
    + apply IH; [exact Hin | rewrite length_insert; exact Hlen].
    + rewrite foldl_insert_lookup_other.
      * rewrite fmap_cons in Hk. apply elem_of_cons in Hk.
        destruct Hk as [->|Hk]; [|contradiction].
        apply list_lookup_insert_eq. exact Hlen.
      * intros i' Hi' E. apply Hnin. rewrite <- E.
        apply list_elem_of_fmap_2. exact Hi'.
Qed.

Lemma foldl_insert_length {A} (t : list A) (x : A) (l : list Z) :
  length (foldl (fun t i => <[Z.to_nat i := x]> t) t l) = length t.
Proof.
  revert t. induction l as [|i l IH]; intros t; simpl; [reflexivity|].
  rewrite IH. apply length_insert.
Qed.

(** X3. [context_init] leaves the table as long as it was, sets up the
    slots below [max 1 heap_count] and leaves every other slot as it
    found it; [heap_count] is twice the number of processors. A heap that
    is set up is unlocked, has no memory and empty bins, which makes
    [heap_full] hold for it, and its index is the last value of the loop
    of [heap_init], [ALLOC_HOARD_FULLNESS_GROUPS - 1], whatever its slot. *)
Theorem context_init_slots_set_up pagesize nprocs ctx_addr c (i : nat) :
  0 <= nprocs ->
  (i < length (heap_table c))%nat ->
  let c' := context_init pagesize nprocs ctx_addr c in
  heap_count c' = nprocs * ALLOC_HOARD_HEAP_CPU_FACTOR /\
  blocks_base c' = ctx_addr + context_size pagesize nprocs /\
  length (heap_table c') = length (heap_table c) /\
  (Z.of_nat i < Z.max 1 (heap_count c') ->
   exists h, heap_table c' !! i = Some (Some h) /\
             lock h = false /\ mem_used h = 0 /\ mem_allocated h = 0 /\
             bins h = replicate (Z.to_nat ALLOC_HOARD_FULLNESS_GROUPS) NULL /\
             index h = ALLOC_HOARD_FULLNESS_GROUPS - 1 /\
             heap_full h = true) /\
  (Z.max 1 (heap_count c') <= Z.of_nat i -> heap_table c' !! i = heap_table c !! i).
Proof.
  intros Hn Hi c'. unfold c', context_init, ALLOC_HOARD_HEAP_CPU_FACTOR.
  cbn [heap_count blocks_base heap_table].
  split; [reflexivity|]. split; [reflexivity|].
  split; [rewrite foldl_insert_length; apply length_insert|].
  split.
  - intros Hlt. exists heap_init. split; [|repeat split].
    destruct (decide (i = 0%nat)) as [->|Hne].
    + rewrite foldl_insert_lookup_other.
      * apply list_lookup_insert_eq. exact Hi.
      * intros j Hj. unfold context_init_slots in Hj. apply elem_of_seqZ in Hj. lia.
    + apply foldl_insert_lookup_in; [|rewrite length_insert; exact Hi].
      apply (list_elem_of_fmap_2' _ _ (Z.of_nat i)); [|lia].
      unfold context_init_slots. apply elem_of_seqZ. lia.
  - intros Hge. rewrite foldl_insert_lookup_other.
    + apply list_lookup_insert_ne. lia.
    + intros j Hj. unfold context_init_slots in Hj. apply elem_of_seqZ in Hj. lia.
Qed.

Lemma context_init_slots_set_up_witness :
  (exists h, heap_table (context_init 4096 1 4096 (raw_context 1)) !! 1%nat = Some (Some h)
             /\ heap_full h = true) /\
  heap_table (context_init 4096 1 4096 (raw_context 1)) !! 2%nat = Some None.
Proof.
  assert (Hn : (0 : Z) <= 1) by lia.
  assert (H1 : (1 < length (heap_table (raw_context 1)))%nat) by (simpl; lia).
  assert (H2 : (2 < length (heap_table (raw_context 1)))%nat) by (simpl; lia).
  split.
  - destruct (context_init_slots_set_up 4096 1 4096 (raw_context 1) 1 Hn H1)
      as (_ & _ & _ & Hin & _).
    destruct Hin as (h & Hh & _ & _ & _ & _ & _ & Hfull); [vm_compute; reflexivity|].
    exists h. split; assumption.
  - destruct (context_init_slots_set_up 4096 1 4096 (raw_context 1) 2 Hn H2)
      as (_ & _ & _ & _ & Hout).
    rewrite Hout; [reflexivity | vm_compute; discriminate].
Defined.

(** X4. [context_heap] leaves the state as it is. When [heap_count] is
    zero as an unsigned 32-bit number it divides by zero; otherwise, for
    a 32-bit thread identity, it returns the slot
    [1 + identity mod heap_count], which lies between 1 and [heap_count]
    and so is never the global heap, and two identities that differ by
    [heap_count] get the same slot. *)
Theorem context_heap_slot st threadid :
  0 <= threadid < 2 ^ 32 ->
  let count := to_uint32 (heap_count (ctx st)) in
  (count = 0 -> context_heap threadid st = Fault DivisionByZero) /\
  (count <> 0 ->
   context_heap threadid st = Ok (1 + threadid mod count, st) /\
   1 <= 1 + threadid mod count <= count /\
   1 + threadid mod count <> context_globalheap /\
   (threadid + count < 2 ^ 32 ->
    context_heap (threadid + count) st = context_heap threadid st)).
Proof.
  intros Ht count. unfold context_heap. fold count.
  assert (Hc : 0 <= count < 2 ^ 32) by (apply Z.mod_pos_bound; lia).
  split.
  - intros ->. reflexivity.
  - intros Hnz. destruct (Z.eqb_spec count 0); [contradiction|].
    pose proof (Z.mod_pos_bound threadid count ltac:(lia)) as Hm.
    unfold to_uint32 at 1. rewrite (Z.mod_small (1 + _)) by lia.
    split; [reflexivity|]. split; [lia|]. split; [unfold context_globalheap; lia|].
    intros _.
    assert (E : (threadid + count) mod count = threadid mod count).
    { rewrite <- (Z.mod_add threadid 1 count) by lia. f_equal. lia. }
    rewrite E. reflexivity.
Qed.

Lemma context_heap_slot_witness :
  context_heap 5 example_fresh_state = Ok (2, example_fresh_state) /\
  context_heap 4 example_fresh_state = Ok (1, example_fresh_state).
Proof.
  assert (H5 : 0 <= 5 < 2 ^ 32) by lia.
  assert (H4 : 0 <= 4 < 2 ^ 32) by lia.
  assert (Hc : to_uint32 (heap_count (ctx example_fresh_state)) <> 0)
    by (vm_compute; discriminate).
  split.
  - exact (proj1 (proj2 (context_heap_slot example_fresh_state 5 H5) Hc)).
  - exact (proj1 (proj2 (context_heap_slot example_fresh_state 4 H4) Hc)).
Defined.

(** X5. After [context_init] on the region [mem_sbrk] handed out, for at
    least one processor, the slot [context_heap] returns for a thread
    holds a heap that was set up, unless the identity is congruent to
    [heap_count - 1] modulo [heap_count]: then the slot is the one after
    the last one [context_init] visited, and reading it is a read of
    memory nobody wrote. *)
Theorem context_heap_after_context_init pagesize nprocs ctx_addr pgs threadid :
  1 <= nprocs < 2 ^ 30 ->
  0 <= threadid < 2 ^ 32 ->
  let N := nprocs * ALLOC_HOARD_HEAP_CPU_FACTOR in
  let st := mk_state (context_init pagesize nprocs ctx_addr (raw_context nprocs)) pgs in
  exists slot,
    context_heap threadid st = Ok (slot, st) /\
    (threadid mod N <> N - 1 -> read_heap slot st = Ok (heap_init, st)) /\
    (threadid mod N = N - 1 -> slot = N /\ read_heap slot st = Fault UninitializedRead).
Proof.
  intros Hn Ht N st.
  assert (HN : heap_count (ctx st) = N) by reflexivity.
  assert (Hcount : to_uint32 (heap_count (ctx st)) = N).
  { rewrite HN. unfold to_uint32, N, ALLOC_HOARD_HEAP_CPU_FACTOR.
    apply Z.mod_small. lia. }
  assert (HNpos : 2 <= N) by (unfold N, ALLOC_HOARD_HEAP_CPU_FACTOR; lia).
  destruct (context_heap_slot st threadid Ht) as [_ Hok].
  rewrite Hcount in Hok. destruct (Hok ltac:(lia)) as (Hrun & Hrange & _).
  exists (1 + threadid mod N). split; [exact Hrun|].
  assert (Hlen : length (heap_table (raw_context nprocs)) = S (Z.to_nat N)).
  { unfold raw_context. cbn [heap_table]. apply length_replicate. }
  unfold read_heap. destruct (Z.ltb_spec (1 + threadid mod N) 0); [lia|].
  split.
  - intros Hne.
    destruct (context_init_slots_set_up pagesize nprocs ctx_addr (raw_context nprocs)
                (Z.to_nat (1 + threadid mod N)) ltac:(lia) ltac:(lia))
      as (Hcnt & _ & _ & Hin & _).
    destruct Hin as (h & Hh & _).
    { rewrite Hcnt. fold N. lia. }
    unfold st. cbn [ctx]. rewrite Hh.
    (* the heap in the slot is the one heap_init builds *)
    unfold context_init in Hh. cbn [heap_table] in Hh.
    rewrite foldl_insert_lookup_in in Hh.
    + injection Hh as <-. reflexivity.
    + apply list_elem_of_fmap_2.
      unfold context_init_slots. apply elem_of_seqZ. fold N. lia.
    + rewrite length_insert. lia.
  - intros Heq. split; [lia|].
    unfold st. cbn [ctx]. replace (1 + threadid mod N) with N by lia.
    unfold N. rewrite context_init_last_slot by lia. reflexivity.
Qed.

Lemma context_heap_after_context_init_witness :
  exists slot,
    context_heap 7 example_fresh_state = Ok (slot, example_fresh_state) /\
    slot = 2 /\ read_heap slot example_fresh_state = Fault UninitializedRead.
Proof.
  destruct (context_heap_after_context_init 4096 1 4096 ∅ 7 ltac:(lia) ltac:(lia))
    as (slot & Hrun & _ & Hbad).
  exists slot. split; [exact Hrun|].
  apply Hbad. reflexivity.
Defined.

(** ** The geometry of a superblock *)

Section SuperblockGeometry.

Variable mem_pagesize : Z.

(** X6. On a mapped page that holds the header, for a size class
    between 0 and 63, [superblock_init] returns; the block size is the
    power of two of the class, [block_count] is the largest number of
    blocks that fit behind the header, the superblock is empty and in no
    bin; the bytes of the page, the context and the other pages are as
    before. *)
Theorem superblock_init_geometry sb hp sc st pg :
  sizeof_superblock_t <= mem_pagesize < 2 ^ SIZE_T_BITS ->
  0 <= sc < SIZE_T_BITS ->
  pages st !! sb = Some pg ->
  exists st0 pg0,
    superblock_init mem_pagesize sb hp sc st = Ok (tt, st0) /\
    pages st0 !! sb = Some pg0 /\
    size_class (header pg0) = sc /\
    block_size (header pg0) = 2 ^ sc /\
    0 <= block_count (header pg0) /\
    block_size (header pg0) * block_count (header pg0)
    <= mem_pagesize - sizeof_superblock_t
    < block_size (header pg0) * (block_count (header pg0) + 1) /\
    block_used (header pg0) = 0 /\
    next_block (header pg0) = 0 /\
    next_free (header pg0) = BLOCK_INVALID /\
    heap (header pg0) = hp /\
    prev (header pg0) = NULL /\ next (header pg0) = NULL /\
    bytes pg0 = bytes pg /\
    ctx st0 = ctx st /\
    (forall sb', sb' <> sb -> pages st0 !! sb' = pages st !! sb').
Proof.
  unfold SIZE_T_BITS. intros Hpage Hsc Hpg.
  assert (Hbs : superblock_block_size sc = 2 ^ sc).
  { rewrite superblock_block_size_pow by lia. apply to_size_t_small.
    split; [apply Z.pow_nonneg; lia | apply Z.pow_lt_mono_r; lia]. }
  assert (Hpos : 0 < 2 ^ sc) by (apply Z.pow_pos_nonneg; lia).
  unfold superblock_init. rewrite Hpg, Hbs.
  destruct (Z.eqb_spec (2 ^ sc) 0); [lia|].
  eexists _, _. split; [reflexivity|].
  split; [apply lookup_insert_eq|]. cbn.
  assert (Hsz : to_size_t (superblock_size mem_pagesize - sizeof_superblock_t)
                = mem_pagesize - sizeof_superblock_t).
  { unfold superblock_size. apply to_size_t_small. unfold_sizes. lia. }
  rewrite Hsz.
  pose proof (Z.div_mod (mem_pagesize - sizeof_superblock_t) (2 ^ sc) ltac:(lia)) as Hdm.
  pose proof (Z.mod_pos_bound (mem_pagesize - sizeof_superblock_t) (2 ^ sc) Hpos) as Hm.
  assert (0 <= (mem_pagesize - sizeof_superblock_t) / 2 ^ sc) by (apply Z.div_pos; lia).
  repeat split; try reflexivity; try lia.
  intros sb' Hne. apply lookup_insert_ne. congruence.
Qed.

(** X7. On a mapped page, [superblock_init] divides by zero exactly when
    the size class is 64 or more: the block size, doubled that many
    times in [size_t], has become zero. For a negative size class the
    block size is 1. *)
Theorem superblock_init_block_size_zero sb hp sc st pg :
  pages st !! sb = Some pg ->
  (superblock_init mem_pagesize sb hp sc st = Fault DivisionByZero <-> SIZE_T_BITS <= sc) /\
  (sc < SIZE_T_BITS -> exists st0, superblock_init mem_pagesize sb hp sc st = Ok (tt, st0)) /\
  (sc <= 0 -> superblock_block_size sc = 1).
Proof.
  unfold SIZE_T_BITS. intros Hpg.
  assert (Hbs : SIZE_T_BITS <= sc <-> superblock_block_size sc = 0).
  { unfold SIZE_T_BITS. destruct (Z_le_dec 0 sc) as [Hsc|Hsc].
    - rewrite superblock_block_size_pow by lia. split.
      + intros Hge. replace sc with (64 + (sc - 64)) by lia.
        rewrite Z.pow_add_r by lia. unfold to_size_t, SIZE_T_BITS.
        rewrite Z.mul_comm. apply Z.mod_mul. lia.
      + intros Hz. destruct (Z_le_dec 64 sc); [assumption|]. exfalso.
        rewrite to_size_t_small in Hz.
        * assert (0 < 2 ^ sc) by (apply Z.pow_pos_nonneg; lia). lia.
        * split; [apply Z.pow_nonneg; lia | apply Z.pow_lt_mono_r; lia].
    - unfold superblock_block_size. replace (Z.to_nat sc) with 0%nat by lia.
      simpl. split; [lia | discriminate]. }
  unfold superblock_init. rewrite Hpg. unfold SIZE_T_BITS in Hbs.
  split; [|split].
  - destruct (Z.eqb_spec (superblock_block_size sc) 0) as [Hz|Hnz].
    + split; [intros _; apply Hbs; exact Hz | reflexivity].
    + split; [discriminate | intros Hge; exfalso; apply Hnz, Hbs, Hge].
  - intros Hlt. destruct (Z.eqb_spec (superblock_block_size sc) 0) as [Hz|Hnz].
    + apply Hbs in Hz. lia.
    + eexists. reflexivity.
  - intros Hle. unfold superblock_block_size.
    replace (Z.to_nat sc) with 0%nat by lia. reflexivity.
Qed.

(** X8. On a well-formed superblock, [superblock_block_data] of a block
    index below [block_count] returns, without touching the state, the
    address of the page plus the offset of the block; the whole block
    lies between the header and the end of the page, and the blocks of
    two different indices do not overlap. *)
Theorem superblock_block_data_in_page st sb pg blk blk' :
  pages st !! sb = Some pg ->
  sb_wf mem_pagesize (header pg) ->
  0 <= blk < block_count (header pg) ->
  0 <= blk' < block_count (header pg) ->
  superblock_block_data sb blk st = Ok (PBlock sb (block_offset (header pg) blk), st) /\
  sizeof_superblock_t <= block_offset (header pg) blk /\
  block_offset (header pg) blk + block_size (header pg) <= mem_pagesize /\
  (blk < blk' ->
   block_offset (header pg) blk + block_size (header pg)
   <= block_offset (header pg) blk').
Proof.
  intros Hpg Hwf Hblk Hblk'.
  destruct (wf_block_in_page mem_pagesize _ blk Hwf Hblk) as (E1 & E2 & _).
  destruct Hwf as [Wp Wbs Wfit Wused Wnb Wnf].
  unfold superblock_block_data, bind, read_sb, assert. rewrite Hpg.
  rewrite E1. destruct (Z.ltb_spec blk (block_count (header pg))); [|lia].
  cbn. rewrite E2. unfold block_offset. unfold_sizes.
  split; [reflexivity|]. split; [nia|]. split; [nia|]. intros Hlt. nia.
Qed.

(** X9. On a well-formed superblock, [superblock_block_data] stops on
    its assertion for every index that is not a block of the superblock:
    an index at or above [block_count], and, because the comparison is
    unsigned, every negative index, [BLOCK_INVALID] among them. *)
Theorem superblock_block_data_rejects st sb pg blk :
  pages st !! sb = Some pg ->
  sb_wf mem_pagesize (header pg) ->
  - 2 ^ 31 <= blk < 2 ^ 31 ->
  (superblock_block_data sb blk st = Fault AssertionFailed
   <-> (blk < 0 \/ block_count (header pg) <= blk)) /\
  superblock_block_data sb BLOCK_INVALID st = Fault AssertionFailed.
Proof.
  intros Hpg Hwf Hblk.
  destruct Hwf as [Wp Wbs Wfit Wused Wnb Wnf].
  assert (Hcnt : 0 <= block_count (header pg) < 2 ^ 31) by (unfold_sizes; nia).
  assert (Hneg : forall b, - 2 ^ 31 <= b < 0 ->
                 superblock_block_data sb b st = Fault AssertionFailed).
  { intros b Hb. unfold superblock_block_data, bind, read_sb, assert. rewrite Hpg.
    assert (E : to_size_t b = b + 2 ^ 64).
    { unfold to_size_t, SIZE_T_BITS.
      rewrite <- (Z.mod_add b 1 (2 ^ 64)) by lia.
      rewrite Z.mul_1_l. apply Z.mod_small. lia. }
    rewrite E. destruct (Z.ltb_spec (b + 2 ^ 64) (block_count (header pg))); [lia|].
    reflexivity. }
  split; [|apply Hneg; unfold BLOCK_INVALID; lia].
  destruct (Z_lt_dec blk 0) as [Hn|Hn].
  - split; [intros _; left; exact Hn | intros _; apply Hneg; lia].
  - unfold superblock_block_data, bind, read_sb, assert. rewrite Hpg.
    rewrite (to_size_t_small blk) by lia.
    destruct (Z.ltb_spec blk (block_count (header pg))).
    + split; [discriminate | lia].
    + split; [intros _; right; assumption | reflexivity].
Qed.

End SuperblockGeometry.

Lemma superblock_init_geometry_witness :
  exists st0 pg0,
    superblock_init example_pagesize 8192 1 3 example_state = Ok (tt, st0) /\
    pages st0 !! 8192 = Some pg0 /\
    block_size (header pg0) = 2 ^ 3 /\
    block_size (header pg0) * block_count (header pg0) <= example_pagesize - sizeof_superblock_t.
Proof.
  destruct (superblock_init_geometry example_pagesize 8192 1 3 example_state
              example_raw_page ltac:(unfold_sizes; unfold example_pagesize; lia)
              ltac:(unfold_sizes; lia) eq_refl)
    as (st0 & pg0 & Hrun & Hpg & _ & Hbs & _ & Hfit & _).
  exists st0, pg0. repeat split; try assumption. lia.
Defined.

Lemma superblock_init_block_size_zero_witness :
  superblock_init example_pagesize 8192 1 64 example_state = Fault DivisionByZero.
Proof.
  apply (proj1 (superblock_init_block_size_zero example_pagesize 8192 1 64 example_state
                  example_raw_page eq_refl)).
  unfold SIZE_T_BITS. lia.
Defined.

Lemma superblock_block_data_in_page_witness :
  superblock_block_data 8192 2 example_bin0_state
  = Ok (PBlock 8192 (block_offset (header example_superblock) 2), example_bin0_state) /\
  block_offset (header example_superblock) 2 + block_size (header example_superblock)
  <= block_offset (header example_superblock) 3.
Proof.
  destruct (superblock_block_data_in_page example_pagesize example_bin0_state 8192
              example_superblock 2 3 eq_refl example_superblock_wf
              ltac:(simpl; lia) ltac:(simpl; lia))
    as (Hrun & _ & _ & Hdisj).
  split; [exact Hrun | apply Hdisj; lia].
Defined.

Lemma superblock_block_data_rejects_witness :
  superblock_block_data 8192 504 example_bin0_state = Fault AssertionFailed.
Proof.
  apply (proj1 (superblock_block_data_rejects example_pagesize example_bin0_state 8192
                  example_superblock 504 eq_refl example_superblock_wf ltac:(lia))).
  right. simpl. lia.
Defined.

(** ** The free list *)

Section FreeList.

Variable mem_pagesize : Z.

Lemma set_next_free_same s : set_next_free (next_free s) s = s.
Proof. destruct s; reflexivity. Qed.

Lemma sb_wf_set_next_free s blk :
  sb_wf mem_pagesize s -> 0 <= blk < block_count s ->
  sb_wf mem_pagesize (set_next_free blk s).
Proof. intros [] Hblk. constructor; simpl; try assumption. right. exact Hblk. Qed.

Lemma superblock_freelist_push_block st sb pg blk :
  pages st !! sb = Some pg ->
  sb_wf mem_pagesize (header pg) ->
  0 <= blk < block_count (header pg) ->
  superblock_freelist_push mem_pagesize sb blk st =
  Ok (tt, mk_state (ctx st)
            (<[sb := mk_page (set_next_free blk (header pg))
                             (store32 (bytes pg) (block_offset (header pg) blk)
                                      (next_free (header pg)))]> (pages st))).
Proof.
  intros Hpg Hwf Hblk.
  destruct (wf_block_in_page mem_pagesize _ blk Hwf Hblk) as (E1 & E2 & E3).
  destruct st as [c p]. destruct pg as [s m]. cbn [pages ctx header bytes] in *.
  unfold superblock_freelist_push, superblock_block_data, bind, read_sb, assert,
    store_blockptr, modify_sb.
  cbn. rewrite Hpg. cbn. rewrite E1.
  destruct (Z.ltb_spec blk (block_count s)); [|lia].
  repeat progress (cbn; rewrite ?Hpg, ?lookup_insert_eq, ?E2, ?E3).
  rewrite insert_insert_eq. reflexivity.
Qed.

Lemma superblock_freelist_pop_head st sb pg :
  pages st !! sb = Some pg ->
  sb_wf mem_pagesize (header pg) ->
  next_free (header pg) <> BLOCK_INVALID ->
  superblock_freelist_pop mem_pagesize sb st =
  Ok (next_free (header pg),
      mk_state (ctx st)
        (<[sb := mk_page (set_next_free
                            (load32 (bytes pg)
                                    (block_offset (header pg) (next_free (header pg))))
                            (header pg))
                         (bytes pg)]> (pages st))).
Proof.
  intros Hpg Hwf Hnf.
  pose proof Hwf as [Wp Wbs Wfit Wused Wnb Wnf].
  destruct Wnf as [?|Hr]; [contradiction|].
  destruct (wf_block_in_page mem_pagesize _ _ Hwf Hr) as (E1 & E2 & E3).
  destruct st as [c p]. destruct pg as [s m]. cbn [pages ctx header bytes] in *.
  unfold superblock_freelist_pop, superblock_block_data, bind, read_sb, assert,
    load_blockptr, modify_sb.
  cbn. rewrite Hpg. cbn.
  destruct (Z.eqb_spec (next_free s) BLOCK_INVALID); [contradiction|].
  cbn. rewrite Hpg. cbn. rewrite E1.
  destruct (Z.ltb_spec (next_free s) (block_count s)); [|lia].
  repeat progress (cbn; rewrite ?Hpg, ?lookup_insert_eq, ?E2, ?E3).
  reflexivity.
Qed.

(** X10. The free list of a well-formed superblock is a stack: after a
    push of block [a] and a push of another block [b], the first pop
    returns [b] and the second returns [a]; then the header is what it
    was before the pushes, the context is untouched, and the bytes of the
    page differ at most in the first four bytes of the two blocks. A pop
    on an empty free list returns [BLOCK_INVALID] and changes nothing. *)
Theorem freelist_push_pop_lifo st sb pg a b :
  pages st !! sb = Some pg ->
  sb_wf mem_pagesize (header pg) ->
  0 <= a < block_count (header pg) ->
  0 <= b < block_count (header pg) ->
  a <> b ->
  (exists st1 st2 st3 st4 pg4,
      superblock_freelist_push mem_pagesize sb a st = Ok (tt, st1) /\
      superblock_freelist_push mem_pagesize sb b st1 = Ok (tt, st2) /\
      superblock_freelist_pop mem_pagesize sb st2 = Ok (b, st3) /\
      superblock_freelist_pop mem_pagesize sb st3 = Ok (a, st4) /\
      pages st4 !! sb = Some pg4 /\
      header pg4 = header pg /\
      ctx st4 = ctx st /\
      (forall off,
          ~ block_offset (header pg) a <= off < block_offset (header pg) a + sizeof_blockptr_t ->
          ~ block_offset (header pg) b <= off < block_offset (header pg) b + sizeof_blockptr_t ->
          bytes pg4 off = bytes pg off)) /\
  (next_free (header pg) = BLOCK_INVALID ->
   superblock_freelist_pop mem_pagesize sb st = Ok (BLOCK_INVALID, st)).
Proof.
  intros Hpg Hwf Ha Hb Hab. split.
  - pose proof Hwf as [Wp Wbs Wfit Wused Wnb Wnf].
    pose proof (superblock_freelist_push_block st sb pg a Hpg Hwf Ha) as H1.
    set (pg1 := mk_page (set_next_free a (header pg)) _) in H1.
    set (st1 := mk_state (ctx st) _) in H1.
    assert (Hpg1 : pages st1 !! sb = Some pg1) by apply lookup_insert_eq.
    assert (Hwf1 : sb_wf mem_pagesize (header pg1))
      by (apply sb_wf_set_next_free; assumption).
    pose proof (superblock_freelist_push_block st1 sb pg1 b Hpg1 Hwf1 Hb) as H2.
    set (pg2 := mk_page (set_next_free b (header pg1)) _) in H2.
    set (st2 := mk_state (ctx st1) _) in H2.
    assert (Hpg2 : pages st2 !! sb = Some pg2) by apply lookup_insert_eq.
    assert (Hwf2 : sb_wf mem_pagesize (header pg2))
      by (apply sb_wf_set_next_free; assumption).
    pose proof (superblock_freelist_pop_head st2 sb pg2 Hpg2 Hwf2
                  ltac:(simpl; unfold BLOCK_INVALID; lia)) as H3.
    set (pg3 := mk_page _ (bytes pg2)) in H3.
    set (st3 := mk_state (ctx st2) _) in H3.
    assert (Hpg3 : pages st3 !! sb = Some pg3) by apply lookup_insert_eq.
    (* the link read back from block b is a *)
    assert (Hl3 : next_free (header pg3) = a).
    { unfold pg3, pg2. cbn. unfold block_offset. cbn.
      apply load32_store32_same. unfold_sizes. nia. }
    assert (Hh3 : header pg3 = set_next_free a (header pg)).
    { unfold pg3. cbn [header]. fold (block_offset (header pg2) (next_free (header pg2))).
      change (header pg3) with
        (set_next_free (load32 (bytes pg2) (block_offset (header pg2) (next_free (header pg2))))
                       (header pg2)) in Hl3.
      cbn [next_free set_next_free] in Hl3. rewrite Hl3.
      destruct pg as [s m]. destruct s. reflexivity. }
    assert (Hwf3 : sb_wf mem_pagesize (header pg3)).
    { rewrite Hh3. apply sb_wf_set_next_free; assumption. }
    pose proof (superblock_freelist_pop_head st3 sb pg3 Hpg3 Hwf3
                  ltac:(rewrite Hl3; unfold BLOCK_INVALID; lia)) as H4.
    rewrite Hl3 in H4.
    eexists st1, st2, st3, _, _.
    split; [exact H1|]. split; [exact H2|]. split; [exact H3|]. split; [exact H4|].
    split; [apply lookup_insert_eq|].
    assert (Hoff : forall x, block_offset (header pg3) x = block_offset (header pg) x).
    { intros x. rewrite Hh3. reflexivity. }
    split; [|split; [reflexivity|]].
    + cbn [header]. rewrite Hoff.
      assert (E : load32 (bytes pg3) (block_offset (header pg) a) = next_free (header pg)).
      { unfold pg3, pg2, pg1. cbn [bytes header]. unfold block_offset. cbn.
        rewrite load32_store32_other by (unfold_sizes; nia).
        apply load32_store32_same.
        unfold_sizes. destruct Wnf as [->|?]; [unfold BLOCK_INVALID; lia | nia]. }
      rewrite E, Hh3. destruct pg as [s m]. destruct s. reflexivity.
    + intros off Hna Hnb. unfold pg3, pg2, pg1. cbn [bytes header].
      unfold block_offset in *. cbn in *. unfold sizeof_blockptr_t in *.
      rewrite !store32_other by lia. reflexivity.
  - intros Hnf. unfold superblock_freelist_pop, bind, read_sb. rewrite Hpg, Hnf.
    reflexivity.
Qed.

End FreeList.

Lemma freelist_push_pop_lifo_witness :
  exists st1 st2 st3 st4,
    superblock_freelist_push example_pagesize 8192 5 example_bin0_state = Ok (tt, st1) /\
    superblock_freelist_push example_pagesize 8192 7 st1 = Ok (tt, st2) /\
    superblock_freelist_pop example_pagesize 8192 st2 = Ok (7, st3) /\
    superblock_freelist_pop example_pagesize 8192 st3 = Ok (5, st4).
Proof.
  destruct (proj1 (freelist_push_pop_lifo example_pagesize example_bin0_state 8192
                     example_superblock 5 7 eq_refl example_superblock_wf
                     ltac:(simpl; lia) ltac:(simpl; lia) ltac:(lia)))
    as (st1 & st2 & st3 & st4 & pg4 & H1 & H2 & H3 & H4 & _).
  exists st1, st2, st3, st4. auto.
Defined.

(** ** Block allocation and block free together *)

Section BlockRoundTrips.

Variable mem_pagesize : Z.

Lemma sb_wf_counters s u nf :
  sb_wf mem_pagesize s -> 0 <= u <= block_count s ->
  nf = BLOCK_INVALID \/ 0 <= nf < block_count s ->
  sb_wf mem_pagesize (set_block_used u (set_next_free nf s)).
Proof. intros [] Hu Hnf. constructor; simpl; assumption. Qed.

Lemma to_size_t_add_sub m b :
  0 <= m < 2 ^ 64 -> to_size_t (to_size_t (m + b) - b) = m.
Proof.
  intros Hm. unfold to_size_t, SIZE_T_BITS.
  rewrite Zminus_mod_idemp_l. replace (m + b - b) with m by lia.
  apply Z.mod_small. exact Hm.
Qed.

Lemma to_size_t_sub_add m b :
  0 <= m < 2 ^ 64 -> to_size_t (to_size_t (m - b) + b) = m.
Proof.
  intros Hm. unfold to_size_t, SIZE_T_BITS.
  rewrite Zplus_mod_idemp_l. replace (m - b + b) with m by lia.
  apply Z.mod_small. exact Hm.
Qed.

Lemma set_mem_used_same h : set_mem_used (mem_used h) h = h.
Proof. destruct h; reflexivity. Qed.

Lemma allocate_header_free_page pg blk :
  blk <> BLOCK_INVALID ->
  - 2 ^ 31 <= next_free (header pg) < 2 ^ 31 ->
  allocate_header (free_page pg blk) = header pg.
Proof.
  intros Hne Hnf. apply Z.eqb_neq in Hne.
  destruct pg as [[hp0 sc0 bs0 cnt0 u0 nb0 nf0 pv0 nx0] m].
  unfold allocate_header, free_page, block_offset.
  cbn [header bytes next_free set_block_used set_next_free block_used block_size
       next_block heap size_class block_count prev next] in *.
  rewrite Hne. rewrite load32_store32_same by exact Hnf.
  unfold set_next_free, set_block_used.
  cbn [header bytes next_free block_used block_size
       next_block heap size_class block_count prev next].
  f_equal. lia.
Qed.

(** X11. Freeing a live block of a well-formed superblock and
    allocating again gives the same block back, and the two calls
    cancel: the header of the superblock and the owning heap are what
    they were, and the bytes of the page differ at most in the first four
    bytes of that block. *)
Theorem block_free_then_allocate st sb pg h blk :
  pages st !! sb = Some pg ->
  sb_wf mem_pagesize (header pg) ->
  heap_at st (heap (header pg)) h ->
  0 <= mem_used h < 2 ^ SIZE_T_BITS ->
  0 < block_used (header pg) ->
  0 <= blk < block_count (header pg) ->
  exists st1 st2 pg2,
    superblock_block_free mem_pagesize sb blk st = Ok (tt, st1) /\
    superblock_block_allocate mem_pagesize sb st1 = Ok (blk, st2) /\
    pages st2 !! sb = Some pg2 /\
    header pg2 = header pg /\
    heap_at st2 (heap (header pg)) h /\
    (forall off,
        ~ block_offset (header pg) blk <= off
                                       < block_offset (header pg) blk + sizeof_blockptr_t ->
        bytes pg2 off = bytes pg off).
Proof.
  unfold SIZE_T_BITS. intros Hpg Hwf Hheap Hmem Hused Hblk.
  pose proof Hwf as [Wp Wbs Wfit Wused Wnb Wnf].
  pose proof (superblock_block_free_live mem_pagesize st sb pg h blk Hpg Hwf Hheap
                Hused Hblk) as H1.
  set (h1 := set_mem_used _ h) in H1.
  set (st1 := put st _ h1 sb _) in H1.
  assert (Hpg1 : pages st1 !! sb = Some (free_page pg blk)) by apply put_page.
  assert (Hwf1 : sb_wf mem_pagesize (header (free_page pg blk))).
  { unfold free_page. cbn [header]. apply sb_wf_counters; [assumption | lia | right; lia]. }
  assert (Hheap1 : heap_at st1 (heap (header (free_page pg blk))) h1).
  { unfold st1. eapply put_heap. exact Hheap. }
  pose proof (superblock_block_allocate_spare mem_pagesize st1 sb _ h1 Hpg1 Hwf1 Hheap1
                ltac:(unfold free_page; simpl; lia)) as H2.
  assert (Hres : allocate_result (header (free_page pg blk)) = blk).
  { unfold allocate_result, free_page. cbn.
    destruct (Z.eqb_spec blk BLOCK_INVALID); [unfold BLOCK_INVALID in *; lia|reflexivity]. }
  rewrite Hres in H2.
  assert (Hhdr : allocate_header (free_page pg blk) = header pg).
  { apply allocate_header_free_page; [unfold BLOCK_INVALID; lia|].
    unfold_sizes. destruct Wnf as [->|?]; [unfold BLOCK_INVALID; lia | nia]. }
  rewrite Hhdr in H2.
  assert (Hh2 : set_mem_used
                  (to_size_t (mem_used h1 + block_size (header (free_page pg blk)))) h1 = h).
  { unfold h1, free_page. cbn. rewrite to_size_t_sub_add by exact Hmem.
    destruct h; reflexivity. }
  rewrite Hh2 in H2.
  eexists st1, _, _. split; [exact H1|]. split; [exact H2|].
  split; [apply put_page|]. split; [reflexivity|].
  split; [eapply put_heap; exact Hheap1|].
  intros off Hoff. unfold free_page. cbn. apply store32_other.
  unfold sizeof_blockptr_t in Hoff. lia.
Qed.

(** X12. On a superblock that satisfies its representation invariant and
    has spare capacity, an allocation followed by the free of the block
    it returned brings [block_used] and the owning heap back to what
    they were and leaves that block at the head of the free list: the
    next allocation returns it again. *)
Theorem block_allocate_then_free st sb pg L h :
  pages st !! sb = Some pg ->
  sb_inv mem_pagesize pg L ->
  heap_at st (heap (header pg)) h ->
  0 <= mem_used h < 2 ^ SIZE_T_BITS ->
  block_used (header pg) < block_count (header pg) ->
  exists blk st1 st2 st3 pg2,
    superblock_block_allocate mem_pagesize sb st = Ok (blk, st1) /\
    blk <> BLOCK_INVALID /\
    superblock_block_free mem_pagesize sb blk st1 = Ok (tt, st2) /\
    pages st2 !! sb = Some pg2 /\
    block_used (header pg2) = block_used (header pg) /\
    next_free (header pg2) = blk /\
    heap_at st2 (heap (header pg)) h /\
    superblock_block_allocate mem_pagesize sb st2 = Ok (blk, st3).
Proof.
  unfold SIZE_T_BITS. intros Hpg Hinv Hheap Hmem Hspare.
  pose proof Hinv as (Hwf & _).
  pose proof (superblock_block_allocate_spare mem_pagesize st sb pg h Hpg Hwf Hheap
                Hspare) as H1.
  destruct (sb_inv_allocate mem_pagesize pg L Hinv Hspare) as [Hne Hinv1].
  set (blk := allocate_result (header pg)) in *.
  set (pg1 := mk_page (allocate_header pg) (bytes pg)) in *.
  set (h1 := set_mem_used _ h) in H1.
  set (st1 := put st _ h1 sb pg1) in H1.
  assert (Hpg1 : pages st1 !! sb = Some pg1) by apply put_page.
  assert (Hheap0 : heap (header pg1) = heap (header pg)).
  { unfold pg1, allocate_header. cbn. destruct (_ =? _); reflexivity. }
  assert (Hbs1 : block_size (header pg1) = block_size (header pg)).
  { unfold pg1, allocate_header. cbn. destruct (_ =? _); reflexivity. }
  assert (Hu1 : block_used (header pg1) = block_used (header pg) + 1).
  { unfold pg1, allocate_header. cbn. destruct (_ =? _); reflexivity. }
  assert (Hheap1 : heap_at st1 (heap (header pg1)) h1).
  { rewrite Hheap0. unfold st1. eapply put_heap. exact Hheap. }
  pose proof Hinv1 as (Hwf1 & _).
  destruct (sb_inv_live mem_pagesize pg1 (blk :: L) blk Hinv1 ltac:(left))
    as (_ & Hcnt & Hpos).
  pose proof (superblock_block_free_live mem_pagesize st1 sb pg1 h1 blk Hpg1 Hwf1 Hheap1
                Hpos Hcnt) as H2.
  assert (Hh2 : set_mem_used (to_size_t (mem_used h1 - block_size (header pg1))) h1 = h).
  { unfold h1. rewrite Hbs1. cbn. rewrite to_size_t_add_sub by exact Hmem.
    destruct h; reflexivity. }
  rewrite Hh2, Hheap0 in H2.
  set (st2 := put st1 _ h sb (free_page pg1 blk)) in H2.
  assert (Hpg2 : pages st2 !! sb = Some (free_page pg1 blk)) by apply put_page.
  assert (Hheap2 : heap_at st2 (heap (header pg)) h).
  { unfold st2. eapply put_heap. rewrite <- Hheap0. exact Hheap1. }
  pose proof (sb_inv_free mem_pagesize pg1 [] L blk Hinv1) as Hinv2.
  pose proof Hinv2 as (Hwf2 & _).
  assert (Hheap2' : heap_at st2 (heap (header (free_page pg1 blk))) h).
  { change (heap (header (free_page pg1 blk))) with (heap (header pg1)).
    rewrite Hheap0. exact Hheap2. }
  assert (Hu2 : block_used (header (free_page pg1 blk)) = block_used (header pg)).
  { change (block_used (header (free_page pg1 blk))) with (block_used (header pg1) - 1).
    rewrite Hu1. lia. }
  assert (Hc2 : block_count (header (free_page pg1 blk)) = block_count (header pg)).
  { change (block_count (header (free_page pg1 blk))) with (block_count (header pg1)).
    unfold pg1, allocate_header. cbn. destruct (_ =? _); reflexivity. }
  pose proof (superblock_block_allocate_spare mem_pagesize st2 sb _ h Hpg2 Hwf2 Hheap2'
                ltac:(rewrite Hu2, Hc2; exact Hspare)) as H3.
  assert (Hres : allocate_result (header (free_page pg1 blk)) = blk).
  { unfold allocate_result.
    change (next_free (header (free_page pg1 blk))) with blk.
    destruct (Z.eqb_spec blk BLOCK_INVALID); [contradiction|reflexivity]. }
  rewrite Hres in H3.
  eexists blk, st1, st2, _, _.
  split; [exact H1|]. split; [exact Hne|]. split; [exact H2|].
  split; [exact Hpg2|]. split; [exact Hu2|].
  split; [reflexivity|]. split; [exact Hheap2 | exact H3].
Qed.

(** X13. With its owning heap set up, a block free on a well-formed
    superblock returns exactly when some block is in use and the index
    is a block of the superblock; with no block in use, or with an index
    that is negative or not below [block_count], it stops on an
    assertion. *)
Theorem superblock_block_free_asserts st sb pg h blk :
  pages st !! sb = Some pg ->
  sb_wf mem_pagesize (header pg) ->
  heap_at st (heap (header pg)) h ->
  - 2 ^ 31 <= blk < 2 ^ 31 ->
  (0 < block_used (header pg) /\ 0 <= blk < block_count (header pg) ->
   exists st', superblock_block_free mem_pagesize sb blk st = Ok (tt, st')) /\
  (block_used (header pg) = 0 \/ blk < 0 \/ block_count (header pg) <= blk ->
   superblock_block_free mem_pagesize sb blk st = Fault AssertionFailed).
Proof.
  intros Hpg Hwf Hheap Hblk. split.
  - intros [Hused Hr]. eexists.
    apply (superblock_block_free_live mem_pagesize st sb pg h blk Hpg Hwf Hheap Hused Hr).
  - intros Hbad.
    unfold superblock_block_free, bind at 1, read_sb. rewrite Hpg.
    unfold bind at 1, assert.
    destruct (Z.ltb_spec 0 (block_used (header pg))) as [Hpos|Hz]; [|reflexivity].
    cbn [ret]. unfold bind at 1, superblock_freelist_push, bind at 1.
    destruct (superblock_block_data_rejects mem_pagesize st sb pg blk Hpg Hwf Hblk)
      as [Hrej _].
    destruct Hwf as [_ _ _ Wused _ _].
    rewrite (proj2 Hrej) by lia. reflexivity.
Qed.

(** X14. A block free is not checked against the blocks that are in use:
    on a well-formed superblock with at least two blocks in use, freeing
    the same block twice is accepted, and each of the next two
    allocations then returns that block. *)
Theorem double_free_allocates_twice st sb pg h blk :
  pages st !! sb = Some pg ->
  sb_wf mem_pagesize (header pg) ->
  heap_at st (heap (header pg)) h ->
  2 <= block_used (header pg) ->
  0 <= blk < block_count (header pg) ->
  exists st1 st2 st3 st4,
    superblock_block_free mem_pagesize sb blk st = Ok (tt, st1) /\
    superblock_block_free mem_pagesize sb blk st1 = Ok (tt, st2) /\
    superblock_block_allocate mem_pagesize sb st2 = Ok (blk, st3) /\
    superblock_block_allocate mem_pagesize sb st3 = Ok (blk, st4).
Proof.
  intros Hpg Hwf Hheap Hused Hblk.
  pose proof Hwf as [Wp Wbs Wfit Wused Wnb Wnf].
  assert (Hne : (blk =? BLOCK_INVALID) = false)
    by (apply Z.eqb_neq; unfold BLOCK_INVALID; lia).
  (* first free *)
  pose proof (superblock_block_free_live mem_pagesize st sb pg h blk Hpg Hwf Hheap
                ltac:(lia) Hblk) as H1.
  set (h1 := set_mem_used _ h) in H1. set (pg1 := free_page pg blk) in H1.
  set (st1 := put st _ h1 sb pg1) in H1.
  assert (Hpg1 : pages st1 !! sb = Some pg1) by apply put_page.
  assert (Hwf1 : sb_wf mem_pagesize (header pg1)).
  { unfold pg1, free_page. cbn [header]. apply sb_wf_counters; [assumption|lia|right;lia]. }
  assert (Hheap1 : heap_at st1 (heap (header pg1)) h1)
    by (unfold st1; eapply put_heap; exact Hheap).
  (* second free *)
  pose proof (superblock_block_free_live mem_pagesize st1 sb pg1 h1 blk Hpg1 Hwf1 Hheap1
                ltac:(unfold pg1, free_page; simpl; lia)
                ltac:(unfold pg1, free_page; simpl; lia)) as H2.
  set (h2 := set_mem_used _ h1) in H2. set (pg2 := free_page pg1 blk) in H2.
  set (st2 := put st1 _ h2 sb pg2) in H2.
  assert (Hpg2 : pages st2 !! sb = Some pg2) by apply put_page.
  assert (Hwf2 : sb_wf mem_pagesize (header pg2)).
  { unfold pg2, free_page. cbn [header]. apply sb_wf_counters.
    - exact Hwf1.
    - unfold pg1, free_page. simpl. lia.
    - right. unfold pg1, free_page. simpl. lia. }
  assert (Hheap2 : heap_at st2 (heap (header pg2)) h2)
    by (unfold st2; eapply put_heap; exact Hheap1).
  (* the block now links to itself *)
  assert (Hlink : load32 (bytes pg2) (block_offset (header pg2) blk) = blk).
  { unfold pg2, pg1, free_page. cbn. unfold block_offset. cbn.
    apply load32_store32_same. unfold_sizes. nia. }
  (* first allocation *)
  pose proof (superblock_block_allocate_spare mem_pagesize st2 sb pg2 h2 Hpg2 Hwf2 Hheap2
                ltac:(unfold pg2, pg1, free_page; simpl; lia)) as H3.
  assert (Hres2 : allocate_result (header pg2) = blk).
  { unfold allocate_result, pg2, free_page. cbn. rewrite Hne. reflexivity. }
  rewrite Hres2 in H3.
  set (h3 := set_mem_used _ h2) in H3.
  set (pg3 := mk_page (allocate_header pg2) (bytes pg2)) in H3.
  set (st3 := put st2 _ h3 sb pg3) in H3.
  assert (Hpg3 : pages st3 !! sb = Some pg3) by apply put_page.
  assert (Hh3 : header pg3
                = set_block_used (block_used (header pg) - 1 - 1 + 1)
                                 (set_next_free blk (header pg))).
  { unfold pg3, allocate_header. cbn [header].
    change (next_free (set_block_used (block_used (header pg2) + 1) (header pg2)))
      with (next_free (header pg2)).
    assert (Enf : next_free (header pg2) = blk) by reflexivity.
    rewrite Enf, Hne.
    change (block_offset (set_block_used (block_used (header pg2) + 1) (header pg2)) blk)
      with (block_offset (header pg2) blk).
    rewrite Hlink. unfold pg2, pg1, free_page. cbn. reflexivity. }
  assert (Hwf3 : sb_wf mem_pagesize (header pg3)).
  { rewrite Hh3. apply sb_wf_counters; [assumption | lia | right; lia]. }
  assert (Hheap3 : heap_at st3 (heap (header pg3)) h3).
  { rewrite Hh3. unfold st3. eapply put_heap. exact Hheap2. }
  (* second allocation *)
  pose proof (superblock_block_allocate_spare mem_pagesize st3 sb pg3 h3 Hpg3 Hwf3 Hheap3
                ltac:(rewrite Hh3; simpl; lia)) as H4.
  assert (Hres3 : allocate_result (header pg3) = blk).
  { rewrite Hh3. unfold allocate_result. cbn. rewrite Hne. reflexivity. }
  rewrite Hres3 in H4.
  eexists st1, st2, st3, _.
  split; [exact H1|]. split; [exact H2|]. split; [exact H3 | exact H4].
Qed.

End BlockRoundTrips.

Lemma example_page_wf used nb nf m :
  0 <= used <= 504 -> 0 <= nb <= 504 -> nf = BLOCK_INVALID \/ 0 <= nf < 504 ->
  sb_wf example_pagesize (header (example_page used nb nf m)).
Proof.
  intros Hu Hnb Hnf. constructor; simpl; try assumption;
    unfold example_pagesize, INT32_MAX, sizeof_blockptr_t, sizeof_superblock_t; lia.
Qed.

Lemma example_trace_2_heap_at :
  heap_at example_trace_2 1 (set_mem_used 16 heap_init).
Proof. split; [lia | reflexivity]. Qed.

Lemma example_superblock_inv : sb_inv example_pagesize example_superblock [].
Proof.
  split; [exact example_superblock_wf|]. split; [reflexivity|].
  exists []. split; reflexivity.
Qed.

Lemma block_free_then_allocate_witness :
  exists st1 st2 pg2,
    superblock_block_free example_pagesize 8192 0 example_trace_2 = Ok (tt, st1) /\
    superblock_block_allocate example_pagesize 8192 st1 = Ok (0, st2) /\
    pages st2 !! 8192 = Some pg2 /\
    header pg2 = header (example_page 2 2 BLOCK_INVALID (fun _ => 0)).
Proof.
  destruct (block_free_then_allocate example_pagesize example_trace_2 8192
              (example_page 2 2 BLOCK_INVALID (fun _ => 0)) (set_mem_used 16 heap_init) 0
              eq_refl
              (example_page_wf 2 2 BLOCK_INVALID _ ltac:(lia) ltac:(lia) (or_introl eq_refl))
              example_trace_2_heap_at
              ltac:(unfold SIZE_T_BITS; simpl; lia) ltac:(simpl; lia) ltac:(simpl; lia))
    as (st1 & st2 & pg2 & H1 & H2 & Hpg2 & Hh & _).
  exists st1, st2, pg2. auto.
Defined.

Lemma block_allocate_then_free_witness :
  exists blk st1 st2 st3,
    superblock_block_allocate example_pagesize 8192 example_bin0_state = Ok (blk, st1) /\
    superblock_block_free example_pagesize 8192 blk st1 = Ok (tt, st2) /\
    superblock_block_allocate example_pagesize 8192 st2 = Ok (blk, st3).
Proof.
  destruct (block_allocate_then_free example_pagesize example_bin0_state 8192
              example_superblock [] _ eq_refl example_superblock_inv example_heap_at
              ltac:(unfold SIZE_T_BITS; simpl; lia) ltac:(simpl; lia))
    as (blk & st1 & st2 & st3 & pg2 & H1 & _ & H2 & _ & _ & _ & _ & H3).
  exists blk, st1, st2, st3. auto.
Defined.

Lemma superblock_block_free_asserts_witness :
  (exists st', superblock_block_free example_pagesize 8192 1 example_trace_2 = Ok (tt, st')) /\
  superblock_block_free example_pagesize 8192 504 example_trace_2 = Fault AssertionFailed /\
  superblock_block_free example_pagesize 8192 BLOCK_INVALID example_trace_2
  = Fault AssertionFailed.
Proof.
  pose proof (example_page_wf 2 2 BLOCK_INVALID (fun _ => 0) ltac:(lia) ltac:(lia)
                (or_introl eq_refl)) as Hwf.
  split; [|split].
  - apply (proj1 (superblock_block_free_asserts example_pagesize example_trace_2 8192 _ _ 1
                    eq_refl Hwf example_trace_2_heap_at ltac:(lia))).
    simpl. lia.
  - apply (proj2 (superblock_block_free_asserts example_pagesize example_trace_2 8192 _ _ 504
                    eq_refl Hwf example_trace_2_heap_at ltac:(lia))).
    simpl. lia.
  - apply (proj2 (superblock_block_free_asserts example_pagesize example_trace_2 8192 _ _
                    BLOCK_INVALID eq_refl Hwf example_trace_2_heap_at
                    ltac:(unfold BLOCK_INVALID; lia))).
    unfold BLOCK_INVALID. simpl. lia.
Defined.

Lemma double_free_allocates_twice_witness :
  exists st1 st2 st3 st4,
    superblock_block_free example_pagesize 8192 0 example_trace_2 = Ok (tt, st1) /\
    superblock_block_free example_pagesize 8192 0 st1 = Ok (tt, st2) /\
    superblock_block_allocate example_pagesize 8192 st2 = Ok (0, st3) /\
    superblock_block_allocate example_pagesize 8192 st3 = Ok (0, st4).
Proof.
  exact (double_free_allocates_twice example_pagesize example_trace_2 8192
           (example_page 2 2 BLOCK_INVALID (fun _ => 0)) (set_mem_used 16 heap_init) 0
           eq_refl
           (example_page_wf 2 2 BLOCK_INVALID _ ltac:(lia) ltac:(lia) (or_introl eq_refl))
           example_trace_2_heap_at ltac:(simpl; lia) ltac:(simpl; lia)).
Defined.

(** ** Filling a superblock, and the statistics of its heap *)

Section Filling.

Variable mem_pagesize : Z.

Lemma superblock_allocate_many_watermark n st sb pg h :
  pages st !! sb = Some pg ->
  sb_wf mem_pagesize (header pg) ->
  heap_at st (heap (header pg)) h ->
  next_free (header pg) = BLOCK_INVALID ->
  block_used (header pg) = next_block (header pg) ->
  exists st',
    superblock_allocate_many mem_pagesize sb n st =
    Ok (seqZ (next_block (header pg))
             (Z.min (Z.of_nat n) (block_count (header pg) - next_block (header pg)))
        ++ replicate (Z.to_nat (Z.of_nat n
                                - (block_count (header pg) - next_block (header pg))))
                     BLOCK_INVALID,
        st').
Proof.
  revert st pg h. induction n as [|n IH]; intros st pg h Hpg Hwf Hheap Hnf Hused.
  - exists st. cbn [superblock_allocate_many]. unfold ret.
    pose proof Hwf as [_ _ _ _ Wnb _].
    rewrite seqZ_nil by lia.
    replace (Z.to_nat _) with 0%nat by lia. reflexivity.
  - cbn [superblock_allocate_many]. unfold bind at 1.
    pose proof Hwf as [Wp Wbs Wfit Wused Wnb Wnf].
    destruct (Z_lt_dec (block_used (header pg)) (block_count (header pg))) as [Hspare|Hfull].
    + rewrite (superblock_block_allocate_spare mem_pagesize st sb pg h Hpg Hwf Hheap Hspare).
      set (h1 := set_mem_used (to_size_t (mem_used h + block_size (header pg))) h).
      set (pg1 := mk_page (allocate_header pg) (bytes pg)).
      set (st1 := put st (heap (header pg)) h1 sb pg1).
      assert (Hh1 : header pg1
                    = set_next_block (next_block (header pg) + 1)
                        (set_block_used (block_used (header pg) + 1) (header pg))).
      { unfold pg1, allocate_header. cbn [header].
        change (next_free (set_block_used (block_used (header pg) + 1) (header pg)))
          with (next_free (header pg)).
        rewrite Hnf. reflexivity. }
      assert (Hpg1 : pages st1 !! sb = Some pg1) by apply put_page.
      assert (Hwf1 : sb_wf mem_pagesize (header pg1)).
      { rewrite Hh1. constructor; simpl; try assumption; lia. }
      assert (Hheap1 : heap_at st1 (heap (header pg1)) h1).
      { rewrite Hh1. unfold st1. eapply put_heap. exact Hheap. }
      destruct (IH st1 pg1 h1 Hpg1 Hwf1 Hheap1) as [st' Hrun].
      { rewrite Hh1. exact Hnf. }
      { rewrite Hh1. simpl. lia. }
      exists st'. unfold bind. rewrite Hrun. unfold ret.
      assert (Eres : allocate_result (header pg) = next_block (header pg)).
      { unfold allocate_result. rewrite Hnf. reflexivity. }
      rewrite Eres. rewrite Hh1. cbn [next_block block_count set_next_block set_block_used].
      f_equal. f_equal.
      rewrite (seqZ_cons (next_block (header pg))) by lia.
      rewrite <- app_comm_cons. f_equal. f_equal.
      * f_equal; lia.
      * f_equal. lia.
    + rewrite (superblock_block_allocate_full mem_pagesize st sb pg Hpg ltac:(lia)).
      destruct (IH st pg h Hpg Hwf Hheap Hnf Hused) as [st' Hrun].
      exists st'. unfold bind. rewrite Hrun. unfold ret. f_equal. f_equal.
      rewrite !seqZ_nil by lia. cbn [app].
      replace (Z.to_nat (Z.of_nat (S n) - (block_count (header pg) - next_block (header pg))))
        with (S (Z.to_nat (Z.of_nat n
                           - (block_count (header pg) - next_block (header pg))))) by lia.
      reflexivity.
Qed.

(** X15. A freshly initialized superblock hands out its blocks in index
    order: [n] allocations in a row return 0, 1, 2, ... up to
    [block_count - 1], and [BLOCK_INVALID] from then on. *)
Theorem superblock_allocate_many_fresh sb hp sc st h st0 pg0 (n : nat) :
  sizeof_superblock_t <= mem_pagesize <= INT32_MAX ->
  ALLOC_HOARD_SIZE_CLASS_MIN <= sc ->
  heap_at st hp h ->
  superblock_init mem_pagesize sb hp sc st = Ok (tt, st0) ->
  pages st0 !! sb = Some pg0 ->
  exists st',
    superblock_allocate_many mem_pagesize sb n st0 =
    Ok (seqZ 0 (Z.min (Z.of_nat n) (block_count (header pg0)))
        ++ replicate (Z.to_nat (Z.of_nat n - block_count (header pg0))) BLOCK_INVALID,
        st').
Proof.
  intros Hpage Hsc Hheap Hinit Hpg0.
  pose proof (superblock_init_inv mem_pagesize _ _ _ _ _ _ Hpage Hsc Hheap Hinit)
    as (pg0' & h0 & Hpg0' & Hhp & Hheap0 & Hwf0 & _).
  rewrite Hpg0 in Hpg0'. injection Hpg0' as <-.
  assert (Hhdr : block_used (header pg0) = 0 /\ next_block (header pg0) = 0 /\
                 next_free (header pg0) = BLOCK_INVALID).
  { unfold superblock_init in Hinit.
    destruct (pages st !! sb) as [pg|]; [|discriminate].
    destruct (superblock_block_size sc =? 0); [discriminate|].
    injection Hinit as <-. simpl in Hpg0. rewrite lookup_insert_eq in Hpg0.
    injection Hpg0 as <-. simpl. auto. }
  destruct Hhdr as (Hu0 & Hnb0 & Hnf0). subst hp.
  destruct (superblock_allocate_many_watermark n st0 sb pg0 h0 Hpg0 Hwf0 Hheap0 Hnf0
              ltac:(lia)) as [st' Hrun].
  exists st'. rewrite Hrun, Hnb0. rewrite !Z.sub_0_r. reflexivity.
Qed.

Lemma to_size_t_add_step m b k :
  to_size_t (to_size_t (m + b * k) + b) = to_size_t (m + b * (k + 1)).
Proof.
  unfold to_size_t. rewrite Zplus_mod_idemp_l. f_equal. lia.
Qed.

Lemma to_size_t_sub_step m b k :
  to_size_t (to_size_t (m + b * (k + 1)) - b) = to_size_t (m + b * k).
Proof.
  unfold to_size_t. rewrite Zminus_mod_idemp_l. f_equal. lia.
Qed.

(** The invariant of the statistics: the owning heap holds [m0] plus the
    bytes of the live blocks, and nothing else of it has changed. *)
Lemma sb_step_accounting sb hp h0 bs c c' :
  sb_step mem_pagesize sb c c' ->
  (exists pg h, pages c.1 !! sb = Some pg /\ heap (header pg) = hp /\
                heap_at c.1 hp h /\ sb_inv mem_pagesize pg c.2 /\
                block_size (header pg) = bs /\
                h = set_mem_used (to_size_t (mem_used h0 + bs * Z.of_nat (length c.2))) h0) ->
  exists pg h, pages c'.1 !! sb = Some pg /\ heap (header pg) = hp /\
               heap_at c'.1 hp h /\ sb_inv mem_pagesize pg c'.2 /\
               block_size (header pg) = bs /\
               h = set_mem_used (to_size_t (mem_used h0 + bs * Z.of_nat (length c'.2))) h0.
Proof.
  intros Hstep (pg & h & Hpg & Hhp & Hheap & Hinv & Hbs & Hh).
  pose proof Hinv as (Hwf & Hused & _). subst hp.
  destruct Hstep as [st st' blk L Halloc Hblk | st st' L Halloc
                    | st st' blk L1 L2 Hfree]; cbn [fst snd] in *.
  - destruct (Z_lt_dec (block_used (header pg)) (block_count (header pg))) as [Hspare|Hfull].
    + rewrite (superblock_block_allocate_spare _ _ _ _ h Hpg Hwf Hheap Hspare) in Halloc.
      injection Halloc as <- <-.
      destruct (sb_inv_allocate _ _ _ Hinv Hspare) as [_ Hinv'].
      eexists _, _. split; [apply put_page|].
      assert (E : forall f : superblock_t -> Z,
                 (forall v s, f (set_block_used v s) = f s) ->
                 (forall v s, f (set_next_block v s) = f s) ->
                 (forall v s, f (set_next_free v s) = f s) ->
                 f (allocate_header pg) = f (header pg)).
      { intros f F1 F2 F3. unfold allocate_header. cbv zeta.
        destruct (_ =? _); repeat (rewrite F1 || rewrite F2 || rewrite F3);
          reflexivity. }
      split; [apply (E heap); reflexivity|].
      split; [eapply put_heap; exact Hheap|]. split; [exact Hinv'|].
      split; [cbn [header]; rewrite (E block_size) by reflexivity; exact Hbs|].
      rewrite Hh, Hbs. cbn [length]. unfold set_mem_used. cbn.
      rewrite to_size_t_add_step. do 2 f_equal. lia.
    + rewrite (superblock_block_allocate_full _ _ _ _ Hpg ltac:(lia)) in Halloc.
      injection Halloc as <- <-. contradiction.
  - destruct (Z_lt_dec (block_used (header pg)) (block_count (header pg))) as [Hspare|Hfull].
    + rewrite (superblock_block_allocate_spare _ _ _ _ h Hpg Hwf Hheap Hspare) in Halloc.
      injection Halloc as E <-.
      destruct (sb_inv_allocate _ _ _ Hinv Hspare) as [Hne _]. congruence.
    + rewrite (superblock_block_allocate_full _ _ _ _ Hpg ltac:(lia)) in Halloc.
      injection Halloc as <-. exists pg, h. auto 10.
  - destruct (sb_inv_live _ pg _ blk Hinv) as (_ & Hcnt & Hpos).
    { apply elem_of_app. right. left. }
    rewrite (superblock_block_free_live _ _ _ _ h _ Hpg Hwf Hheap Hpos Hcnt) in Hfree.
    injection Hfree as <-.
    eexists _, _. split; [apply put_page|]. split; [reflexivity|].
    split; [eapply put_heap; exact Hheap|].
    split; [apply sb_inv_free; exact Hinv|].
    split; [exact Hbs|].
    rewrite Hh, Hbs. unfold set_mem_used. cbn.
    rewrite !length_app. cbn [length].
    replace (Z.of_nat (length L1 + S (length L2)))
      with (Z.of_nat (length L1 + length L2) + 1) by lia.
    rewrite to_size_t_sub_step. reflexivity.
Qed.

(** X16. From an initialized superblock, after any sequence of block
    allocations and frees of live indices, the owning heap's [mem_used]
    is what it was at initialization plus [block_size] times
    [block_used], in [size_t]; the heap's lock, index, [mem_allocated]
    and bins are what they were. *)
Theorem heap_mem_used_accounts_blocks sb hp sc st h st0 st' L :
  sizeof_superblock_t <= mem_pagesize <= INT32_MAX ->
  ALLOC_HOARD_SIZE_CLASS_MIN <= sc ->
  heap_at st hp h ->
  0 <= mem_used h < 2 ^ SIZE_T_BITS ->
  superblock_init mem_pagesize sb hp sc st = Ok (tt, st0) ->
  rtc (sb_step mem_pagesize sb) (st0, []) (st', L) ->
  exists pg h',
    pages st' !! sb = Some pg /\
    heap_at st' hp h' /\
    mem_used h' = to_size_t (mem_used h + block_size (header pg) * block_used (header pg)) /\
    lock h' = lock h /\ index h' = index h /\
    mem_allocated h' = mem_allocated h /\ bins h' = bins h.
Proof.
  unfold SIZE_T_BITS. intros Hpage Hsc Hheap Hmem Hinit Htrace.
  pose proof (superblock_init_inv mem_pagesize _ _ _ _ _ _ Hpage Hsc Hheap Hinit)
    as (pg0 & h0 & Hpg0 & Hhp & Hheap0 & Hinv0).
  assert (Hh0 : h0 = h).
  { unfold superblock_init in Hinit.
    destruct (pages st !! sb) as [pg|]; [|discriminate].
    destruct (superblock_block_size sc =? 0); [discriminate|].
    injection Hinit as <-. destruct Hheap as [_ Hh], Hheap0 as [_ Hh0].
    cbn in Hh0. rewrite Hh in Hh0. congruence. }
  subst h0.
  assert (Hall : forall c c',
             rtc (sb_step mem_pagesize sb) c c' ->
             (exists pg h1, pages c.1 !! sb = Some pg /\ heap (header pg) = hp /\
                heap_at c.1 hp h1 /\ sb_inv mem_pagesize pg c.2 /\
                block_size (header pg) = block_size (header pg0) /\
                h1 = set_mem_used
                       (to_size_t (mem_used h + block_size (header pg0)
                                                * Z.of_nat (length c.2))) h) ->
             exists pg h1, pages c'.1 !! sb = Some pg /\ heap (header pg) = hp /\
                heap_at c'.1 hp h1 /\ sb_inv mem_pagesize pg c'.2 /\
                block_size (header pg) = block_size (header pg0) /\
                h1 = set_mem_used
                       (to_size_t (mem_used h + block_size (header pg0)
                                                * Z.of_nat (length c'.2))) h).
  { induction 1 as [|c1 c2 c3 Hstep _ IH]; [auto|].
    intros HJ. apply IH. eapply sb_step_accounting; eassumption. }
  destruct (Hall _ _ Htrace) as (pg & h' & Hpg & _ & Hheap' & Hinv & Hbs & Hh').
  { exists pg0, h. cbn [fst snd length]. change (Z.of_nat 0) with 0.
    rewrite Z.mul_0_r, Z.add_0_r, to_size_t_small by exact Hmem.
    rewrite set_mem_used_same. auto 10. }
  cbn [fst snd] in *. destruct Hinv as (_ & Hused & _).
  exists pg, h'. split; [exact Hpg|]. split; [exact Hheap'|].
  rewrite Hh', Hbs, Hused. cbn. auto.
Qed.

End Filling.

Lemma superblock_allocate_many_fresh_witness :
  exists st',
    superblock_allocate_many example_pagesize 8192 3 example_trace_0
    = Ok ([0; 1; 2], st').
Proof.
  destruct (superblock_allocate_many_fresh example_pagesize 8192 1 3 example_state
              heap_init example_trace_0 example_superblock 3
              example_page_bounds example_size_class example_state_heap_at
              eq_refl eq_refl) as [st' Hrun].
  exists st'. exact Hrun.
Defined.

Lemma heap_mem_used_accounts_blocks_witness :
  exists pg h',
    pages example_trace_4 !! 8192 = Some pg /\
    heap_at example_trace_4 1 h' /\
    mem_used h' = to_size_t (0 + block_size (header pg) * block_used (header pg)).
Proof.
  destruct example_trace as (Hinit & Htrace).
  destruct (heap_mem_used_accounts_blocks example_pagesize 8192 1 3 example_state
              heap_init example_trace_0 example_trace_4 [0; 1]
              example_page_bounds example_size_class example_state_heap_at
              ltac:(unfold SIZE_T_BITS; simpl; lia) Hinit Htrace)
    as (pg & h' & Hpg & Hheap & Hmem & _).
  exists pg, h'. auto.
Defined.

(** ** What block operations leave alone *)

Section Frame.

Variable mem_pagesize : Z.











End Frame.


(** ** Size classes and block sizes *)

(** X18. The size class of the block size of a class is that class
    again, for the classes from [ALLOC_HOARD_SIZE_CLASS_MIN] to 63; the
    block sizes of the classes 0 and 1 map to the minimum class. *)
Theorem util_sizeclass_of_block_size c :
  0 <= c < SIZE_T_BITS ->
  util_sizeclass (superblock_block_size c) = Z.max ALLOC_HOARD_SIZE_CLASS_MIN c.
Proof.
  unfold SIZE_T_BITS, ALLOC_HOARD_SIZE_CLASS_MIN. intros Hc.
  assert (Hpos : 0 < 2 ^ c) by (apply Z.pow_pos_nonneg; lia).
  assert (Hlt : 2 ^ c < 2 ^ 64) by (apply Z.pow_lt_mono_r; lia).
  rewrite superblock_block_size_pow by lia.
  rewrite to_size_t_small by lia.
  destruct (util_sizeclass_spec (2 ^ c) ltac:(lia)) as (H2 & Hge & Hmin).
  apply Z.le_antisymm.
  - apply Hmin; [lia|]. apply Z.pow_le_mono_r; lia.
  - apply Z.max_lub; [exact H2|].
    apply (Z.pow_le_mono_r_iff 2); [lia | lia | exact Hge].
Qed.

Lemma util_sizeclass_of_block_size_witness :
  util_sizeclass (superblock_block_size 11) = 11 /\
  util_sizeclass (superblock_block_size 1) = 2.
Proof.
  split.
  - exact (util_sizeclass_of_block_size 11 ltac:(unfold SIZE_T_BITS; lia)).
  - exact (util_sizeclass_of_block_size 1 ltac:(unfold SIZE_T_BITS; lia)).
Defined.

(** X19. With a page size that is a power of two from 128 bytes to 2^30
    bytes, every request that [mm_malloc] does not pass to the system
    allocator, of at most half a page, gets a size class for which
    [superblock_init] returns a well-formed superblock: a block holds
    the request, the superblock has at least one block, and a block
    larger than the minimum is less than twice the request. *)
Theorem small_request_fits_block k sz sb hp st pg :
  7 <= k <= 30 ->
  0 <= sz <= superblock_size (2 ^ k) / 2 ->
  pages st !! sb = Some pg ->
  exists st0 pg0,
    superblock_init (2 ^ k) sb hp (util_sizeclass sz) st = Ok (tt, st0) /\
    pages st0 !! sb = Some pg0 /\
    sb_wf (2 ^ k) (header pg0) /\
    sz <= block_size (header pg0) /\
    1 <= block_count (header pg0) /\
    (2 ^ ALLOC_HOARD_SIZE_CLASS_MIN < block_size (header pg0) ->
     block_size (header pg0) < 2 * sz).
Proof.
  unfold superblock_size, ALLOC_HOARD_SIZE_CLASS_MIN. intros Hk Hsz Hpg.
  assert (Hhalf : 2 ^ k / 2 = 2 ^ (k - 1)).
  { replace k with (k - 1 + 1) at 1 by lia. rewrite Z.pow_add_r by lia.
    apply Z.div_mul. lia. }
  rewrite Hhalf in Hsz.
  assert (Hdbl : 2 ^ k = 2 * 2 ^ (k - 1)).
  { replace k with (k - 1 + 1) at 1 by lia. rewrite Z.pow_add_r by lia. lia. }
  assert (H64 : 64 <= 2 ^ (k - 1)).
  { change 64 with (2 ^ 6). apply Z.pow_le_mono_r; lia. }
  assert (Hk30 : 2 ^ k <= 2 ^ 30) by (apply Z.pow_le_mono_r; lia).
  assert (Hk64 : 2 ^ (k - 1) < 2 ^ 64) by (apply Z.pow_lt_mono_r; lia).
  (* the class and its block size *)
  assert (Hcls : 2 <= util_sizeclass sz <= k - 1 /\ sz <= 2 ^ util_sizeclass sz /\
                 (4 < 2 ^ util_sizeclass sz -> 2 ^ util_sizeclass sz < 2 * sz)).
  { destruct (Z.eq_dec sz 0) as [->|Hnz].
    - change (util_sizeclass 0) with 2. change (2 ^ 2) with 4. lia.
    - destruct (util_sizeclass_spec sz ltac:(lia)) as (H2 & Hge & Hmin).
      split; [split; [exact H2 | apply Hmin; lia]|]. split; [exact Hge|].
      intros Hbig.
      assert (Hc3 : 3 <= util_sizeclass sz).
      { destruct (Z_le_dec 3 (util_sizeclass sz)); [assumption|].
        replace (util_sizeclass sz) with 2 in Hbig by lia.
        change (2 ^ 2) with 4 in Hbig. lia. }
      destruct (Z_lt_dec (2 ^ (util_sizeclass sz - 1)) sz) as [Hlt|Hnlt].
      + replace (util_sizeclass sz) with (util_sizeclass sz - 1 + 1) at 1 by lia.
        rewrite Z.pow_add_r by lia. lia.
      + specialize (Hmin (util_sizeclass sz - 1) ltac:(lia) ltac:(lia)). lia. }
  destruct Hcls as (Hc & Hfit & Htight).
  set (c := util_sizeclass sz) in *.
  assert (Hcle : 2 ^ c <= 2 ^ (k - 1)) by (apply Z.pow_le_mono_r; lia).
  assert (H4 : 4 <= 2 ^ c).
  { change 4 with (2 ^ 2). apply Z.pow_le_mono_r; lia. }
  destruct (superblock_init_geometry (2 ^ k) sb hp c st pg)
    as (st0 & pg0 & Hrun & Hpg0 & _ & Hbs & Hcnt0 & Hgeo & Hu & Hnb & Hnf & _);
    [unfold_sizes; lia | unfold SIZE_T_BITS; lia | exact Hpg |].
  exists st0, pg0. split; [exact Hrun|]. split; [exact Hpg0|].
  rewrite Hbs in *. unfold sizeof_superblock_t in *.
  assert (Hone : 1 <= block_count (header pg0)).
  { destruct (Z_le_dec 1 (block_count (header pg0))); [assumption|].
    assert (block_count (header pg0) = 0) by lia.
    replace (block_count (header pg0)) with 0 in Hgeo by lia. lia. }
  split; [|split; [exact Hfit|split; [exact Hone|]]].
  - constructor; rewrite ?Hbs, ?Hu, ?Hnb, ?Hnf;
      unfold_sizes; unfold BLOCK_INVALID; lia.
  - change (2 ^ 2) with 4. exact Htight.
Qed.

Lemma small_request_fits_block_witness :
  exists st0 pg0,
    superblock_init (2 ^ 12) 8192 1 (util_sizeclass 2048) example_state = Ok (tt, st0) /\
    pages st0 !! 8192 = Some pg0 /\
    2048 <= block_size (header pg0) /\
    1 <= block_count (header pg0).
Proof.
  destruct (small_request_fits_block 12 2048 8192 1 example_state example_raw_page
              ltac:(lia)
              ltac:(unfold superblock_size; change (2 ^ 12 / 2) with 2048; lia) eq_refl)
    as (st0 & pg0 & Hrun & Hpg0 & _ & Hfit & Hone & _).
  exists st0, pg0. auto.
Defined.

(** ** The allocation search *)

Lemma sb_chain_functional pgs sb l l' :
  sb_chain pgs sb l -> sb_chain pgs sb l' -> l = l'.
Proof.
  revert sb l'. induction l as [|a l IH]; intros sb [|a' l']; simpl.
  - reflexivity.
  - intros -> (<- & Hne & _). contradiction.
  - intros (<- & Hne & _) ->. contradiction.
  - intros (<- & _ & pg & Hpg & Hl) (<- & _ & pg' & Hpg' & Hl').
    rewrite Hpg in Hpg'. injection Hpg' as <-.
    f_equal. eapply IH; eassumption.
Qed.

Lemma sb_chain_suffix pgs sb l1 a l2 :
  sb_chain pgs sb (l1 ++ a :: l2) -> sb_chain pgs a (a :: l2).
Proof.
  revert sb. induction l1 as [|b l1 IH]; intros sb; simpl.
  - intros (-> & H). split; [reflexivity | exact H].
  - intros (_ & _ & pg & _ & Hl). eapply IH. exact Hl.
Qed.

Lemma sb_chain_NoDup pgs sb l : sb_chain pgs sb l -> NoDup l.
Proof.
  revert sb. induction l as [|a l IH]; intros sb Hl; [constructor|].
  pose proof Hl as (-> & Hne & pg & Hpg & Hl').
  constructor; [|eapply IH; exact Hl'].
  intros Hin. apply list_elem_of_split in Hin. destruct Hin as (l1 & l2 & ->).
  pose proof (sb_chain_suffix _ _ _ _ _ Hl') as Hsuf.
  pose proof (sb_chain_functional _ _ _ _ Hl Hsuf) as E.
  apply (f_equal length) in E. cbn [length] in E. rewrite length_app in E.
  cbn [length] in E. lia.
Qed.

Lemma sb_chain_mapped pgs sb l a :
  sb_chain pgs sb l -> a ∈ l -> a <> NULL /\ is_Some (pgs !! a).
Proof.
  revert sb. induction l as [|b l IH]; intros sb Hl Ha; [inversion Ha|].
  destruct Hl as (-> & Hne & pg & Hpg & Hl').
  apply elem_of_cons in Ha. destruct Ha as [->|Ha].
  - split; [exact Hne | eauto].
  - eapply IH; eassumption.
Qed.

Lemma sb_chain_length pgs sb l : sb_chain pgs sb l -> (length l <= size pgs)%nat.
Proof.
  intros Hl.
  rewrite <- (size_list_to_set (C := gset Z) l) by (eapply sb_chain_NoDup; exact Hl).
  rewrite <- size_dom. apply subseteq_size.
  intros a Ha. apply elem_of_list_to_set in Ha. apply elem_of_dom.
  eapply sb_chain_mapped; eassumption.
Qed.

(** X20. When the [next] links from the head of a bin form a list that
    ends in [NULL], the inner loop of the scan returns the first
    superblock of the list that has the size class asked for and spare
    capacity, or [NULL] when the list has none, and leaves the state as
    it is; the number of links it is given to follow, one more than the
    number of superblocks, is never exhausted on such a list. *)
Theorem context_malloc_scan_bin_first_usable fuel sb sizecls st l :
  sb_chain (pages st) sb l ->
  (length l <= fuel)%nat ->
  context_malloc_scan_bin fuel sb sizecls st
  = Ok (first_usable (pages st) sizecls l, st) /\
  context_malloc_scan_bin (S (size (pages st))) sb sizecls st
  = Ok (first_usable (pages st) sizecls l, st).
Proof.
  intros Hl Hfuel.
  assert (Hgen : forall fuel sb l,
             sb_chain (pages st) sb l -> (length l <= fuel)%nat ->
             context_malloc_scan_bin fuel sb sizecls st
             = Ok (first_usable (pages st) sizecls l, st)).
  { clear. intros fuel. induction fuel as [|fuel IH]; intros sb l Hl Hfuel.
    - destruct l; [|simpl in Hfuel; lia]. simpl in Hl. subst sb. reflexivity.
    - destruct l as [|a l].
      + simpl in Hl. subst sb. reflexivity.
      + destruct Hl as (-> & Hne & pg & Hpg & Hl').
        cbn [context_malloc_scan_bin first_usable].
        destruct (Z.eqb_spec a NULL); [contradiction|].
        unfold bind, read_sb, usable. rewrite Hpg.
        destruct (_ && _); [reflexivity|].
        apply IH; [exact Hl' | simpl in Hfuel; lia]. }
  split; [apply Hgen; assumption|].
  apply Hgen; [exact Hl|]. pose proof (sb_chain_length _ _ _ Hl). lia.
Qed.

(** X21. The scan of a bin has no guard against a list that loops: when
    the links from [sb] never leave a set of superblocks none of which
    has the size class asked for and spare capacity, no number of steps
    ends the loop. *)
Theorem context_malloc_scan_bin_cycle (S : Z -> Prop) fuel sb sizecls st :
  (forall a, S a ->
             a <> NULL /\ usable (pages st) sizecls a = false /\
             exists pg, pages st !! a = Some pg /\ S (next (header pg))) ->
  S sb ->
  context_malloc_scan_bin fuel sb sizecls st = Fault NonTermination.
Proof.
  intros Hclosed. revert sb. induction fuel as [|fuel IH]; intros sb Hsb.
  - destruct (Hclosed sb Hsb) as (Hne & _). simpl.
    destruct (Z.eqb_spec sb NULL); [contradiction|reflexivity].
  - destruct (Hclosed sb Hsb) as (Hne & Hun & pg & Hpg & Hnext).
    cbn [context_malloc_scan_bin].
    destruct (Z.eqb_spec sb NULL); [contradiction|].
    unfold bind, read_sb. unfold usable in Hun. rewrite Hpg in *. rewrite Hun.
    apply IH. exact Hnext.
Qed.

Lemma first_usable_app pgs sizecls l l' :
  (forall a, a ∈ l -> a <> NULL) ->
  first_usable pgs sizecls (l ++ l')
  = if first_usable pgs sizecls l =? NULL then first_usable pgs sizecls l'
    else first_usable pgs sizecls l.
Proof.
  induction l as [|a l IH]; intros Hne; [reflexivity|].
  cbn [app first_usable]. destruct (usable pgs sizecls a).
  - destruct (Z.eqb_spec a NULL) as [E|]; [|reflexivity].
    exfalso. apply (Hne a); [left | exact E].
  - apply IH. intros b Hb. apply Hne. right. exact Hb.
Qed.

(** X22. Entered at a group below [ALLOC_HOARD_FULLNESS_GROUPS], on a
    heap that is set up and whose bins hold lists ending in [NULL], the
    outer loop of the scan returns the first superblock with the size
    class asked for and spare capacity in the lists of the bins [group],
    [group - 1], ..., 1, taken in that order, or [NULL]; the state is
    unchanged, and the list of bin 0 is not looked at. *)
Theorem context_malloc_scan_first_usable group hp h sizecls st ls :
  heap_at st hp h ->
  (Z.of_nat group < ALLOC_HOARD_FULLNESS_GROUPS) ->
  bin_chains (pages st) (bins h) group ls ->
  context_malloc_scan group hp sizecls st
  = Ok (first_usable (pages st) sizecls (concat ls), st).
Proof.
  unfold ALLOC_HOARD_FULLNESS_GROUPS. intros [Hhp Hh].
  revert ls. induction group as [|g IH]; intros ls Hg Hls.
  - destruct ls; [reflexivity | contradiction].
  - destruct ls as [|l ls]; [contradiction|].
    destruct Hls as ((first & Hfirst & Hl) & Hls).
    cbn [context_malloc_scan concat]. unfold bind at 1, read_heap.
    destruct (Z.ltb_spec hp 0); [lia|]. rewrite Hh.
    unfold bind at 1, bins_read.
    destruct (Z.leb_spec 0 (Z.of_nat (S g))); [|lia].
    destruct (Z.ltb_spec (Z.of_nat (S g)) ALLOC_HOARD_FULLNESS_GROUPS);
      [|unfold ALLOC_HOARD_FULLNESS_GROUPS in *; lia].
    cbn [andb]. rewrite Nat2Z.id, Hfirst. unfold ret at 1.
    unfold bind at 1.
    destruct (context_malloc_scan_bin_first_usable (S (size (pages st))) first sizecls st l
                Hl ltac:(pose proof (sb_chain_length _ _ _ Hl); lia)) as [-> _].
    rewrite first_usable_app
      by (intros a Ha; eapply sb_chain_mapped; eassumption).
    destruct (Z.eqb_spec (first_usable (pages st) sizecls l) NULL); cbn [negb].
    + apply IH; [lia | exact Hls].
    + reflexivity.
Qed.

Lemma example_scan_chain : sb_chain (pages example_scan_state) 8192 [8192; 12288].
Proof.
  split; [reflexivity|]. split; [discriminate|].
  eexists. split; [reflexivity|].
  split; [reflexivity|]. split; [discriminate|].
  eexists. split; [reflexivity|]. reflexivity.
Qed.

Lemma context_malloc_scan_bin_first_usable_witness :
  context_malloc_scan_bin 2 8192 3 example_scan_state = Ok (12288, example_scan_state).
Proof.
  exact (proj1 (context_malloc_scan_bin_first_usable 2 8192 3 example_scan_state
                  [8192; 12288] example_scan_chain ltac:(simpl; lia))).
Defined.

Lemma context_malloc_scan_bin_cycle_witness :
  context_malloc_scan_bin 1000 8192 3 example_cycle_state = Fault NonTermination.
Proof.
  apply (context_malloc_scan_bin_cycle (fun a => a = 8192)); [|reflexivity].
  intros a ->. split; [discriminate|]. split; [reflexivity|].
  eexists. split; reflexivity.
Defined.

Lemma context_malloc_scan_first_usable_witness :
  context_malloc_scan 3 1 3 example_scan_state = Ok (12288, example_scan_state).
Proof.
  apply (context_malloc_scan_first_usable 3 1
           (set_bins [NULL; 8192; NULL; NULL] heap_init) 3 example_scan_state
           [[]; []; [8192; 12288]]).
  - split; [lia | reflexivity].
  - unfold ALLOC_HOARD_FULLNESS_GROUPS. lia.
  - split; [exists NULL; split; reflexivity|].
    split; [exists NULL; split; reflexivity|].
    split; [exists 8192; split; [reflexivity | exact example_scan_chain]|].
    exact I.
Defined.

(** ** Serving a request *)

Section Serving.

Variable mem_pagesize : Z.

(** X23. When the scan has found a superblock that satisfies its
    representation invariant and has spare capacity, [context_malloc]
    allocates a block of it and returns the address of that block: the
    page of the superblock plus an offset behind the header, with the
    whole block inside the page. Handed a superblock without spare
    capacity it stops on the assertion of [superblock_block_data], which
    gets [BLOCK_INVALID]. *)
Theorem context_malloc_serve_found glob st sb pg L h :
  sb <> NULL ->
  pages st !! sb = Some pg ->
  sb_inv mem_pagesize pg L ->
  heap_at st (heap (header pg)) h ->
  (block_used (header pg) < block_count (header pg) ->
   exists blk st',
     superblock_block_allocate mem_pagesize sb st = Ok (blk, st') /\
     context_malloc_serve mem_pagesize glob sb st
     = Ok (PBlock sb (block_offset (header pg) blk), st') /\
     0 <= blk < block_count (header pg) /\
     (blk ∉ L) /\
     sizeof_superblock_t <= block_offset (header pg) blk /\
     block_offset (header pg) blk + block_size (header pg) <= mem_pagesize) /\
  (block_used (header pg) = block_count (header pg) ->
   context_malloc_serve mem_pagesize glob sb st = Fault AssertionFailed).
Proof.
  intros Hsb Hpg Hinv Hheap. pose proof Hinv as (Hwf & _).
  unfold context_malloc_serve. destruct (Z.eqb_spec sb NULL); [contradiction|].
  cbn [negb]. split.
  - intros Hspare.
    pose proof (superblock_block_allocate_spare mem_pagesize st sb pg h Hpg Hwf Hheap
                  Hspare) as Hrun.
    destruct (sb_inv_allocate mem_pagesize pg L Hinv Hspare) as [Hne Hinv1].
    set (blk := allocate_result (header pg)) in *.
    set (pg1 := mk_page (allocate_header pg) (bytes pg)) in *.
    set (st1 := put st _ _ sb pg1) in Hrun.
    assert (Hpg1 : pages st1 !! sb = Some pg1) by apply put_page.
    pose proof Hinv1 as (Hwf1 & _).
    destruct (sb_inv_live mem_pagesize pg1 (blk :: L) blk Hinv1 ltac:(left))
      as (_ & Hcnt & _).
    destruct (sb_inv_NoDup mem_pagesize pg1 (blk :: L) Hinv1) as [Hnd _].
    assert (Hsame : block_size (header pg1) = block_size (header pg) /\
                    block_count (header pg1) = block_count (header pg)).
    { unfold pg1, allocate_header. cbn. destruct (_ =? _); split; reflexivity. }
    destruct Hsame as [Hbs Hbc].
    destruct (superblock_block_data_in_page mem_pagesize st1 sb pg1 blk blk Hpg1 Hwf1
                Hcnt Hcnt) as (Hdata & Hlo & Hhi & _).
    assert (Hoff : block_offset (header pg1) blk = block_offset (header pg) blk).
    { unfold block_offset. rewrite Hbs. reflexivity. }
    rewrite Hoff, ?Hbs, ?Hbc in *.
    exists blk, st1. split; [exact Hrun|].
    split; [unfold bind; rewrite Hrun; exact Hdata|].
    split; [exact Hcnt|]. split; [apply NoDup_cons in Hnd; tauto|].
    split; assumption.
  - intros Hfull. unfold bind.
    rewrite (superblock_block_allocate_full mem_pagesize st sb pg Hpg ltac:(lia)).
    apply (superblock_block_data_rejects mem_pagesize st sb pg 0 Hpg Hwf ltac:(lia)).
Qed.


End Serving.

Lemma context_malloc_serve_found_witness :
  exists blk st',
    context_malloc_serve example_pagesize context_globalheap 8192 example_bin0_state
    = Ok (PBlock 8192 (block_offset (header example_superblock) blk), st') /\
    0 <= blk < 504.
Proof.
  destruct (proj1 (context_malloc_serve_found example_pagesize context_globalheap
                     example_bin0_state 8192 example_superblock [] _
                     ltac:(discriminate) eq_refl example_superblock_inv example_heap_at)
              ltac:(simpl; lia))
    as (blk & st' & _ & Hrun & Hcnt & _).
  exists blk, st'. split; [exact Hrun | exact Hcnt].
Defined.

